(** * Mood tracker (script.js): entry store and query pipeline

    A shallow embedding of the logic of [script.js]: the selected-tags
    buffer, the entry store with import, the history filter with search, the
    sort, and the statistics (streak, most common mood, distribution).

    Modelling conventions.
    - A JavaScript string is a [string] of 8-bit characters.  [trim] and
      [toLowerCase] act on the ASCII range (white space 9-13 and 32, letters
      A-Z); other characters are left alone.
    - A field of an entry object that may be absent after an import
      ([mood], [note], [tags]) is an [option]: [None] is JavaScript's
      [undefined].  A field that is present has the type [logMood] gives it.
    - A timestamp is the time value of a [Date], in milliseconds since the
      epoch, or NaN for the Invalid Date that [new Date] makes of a value it
      cannot read.  Local time is UTC shifted by a constant offset [tz].
    - [Array.prototype.sort] is a stable sort.  ECMAScript fixes its result
      when the comparator orders the elements consistently; when it does not
      (a NaN among the timestamps or the ranks) the order is left to the
      engine.  [sort] is the insertion sort, and every statement about the
      order it produces says which entries it is about.
    - An object literal inherits the members of [Object.prototype].  A
      lookup in an object literal is modelled for keys that are not the name
      of such a member ([inherited]); the statements about the mood counts
      carry this as the hypothesis [plainMoods].
    - A JavaScript exception is the [Throw] outcome of a [completion].
    - Percentages are exact rationals; the rounding of double arithmetic is
      not modelled. *)

From Stdlib Require Import String Ascii List Bool Arith ZArith NArith Lia.
From Stdlib Require Import QArith Permutation Sorted.
Import ListNotations.

Close Scope Q_scope.
Open Scope string_scope.
Open Scope list_scope.

(** ** JavaScript strings *)

Module JsString.

Definition isWhiteSpace (c : ascii) : bool :=
  let n := N_of_ascii c in
  (((9 <=? n) && (n <=? 13)) || (n =? 32))%N.

Definition toLower (c : ascii) : ascii :=
  let n := N_of_ascii c in
  if ((65 <=? n) && (n <=? 90))%N then ascii_of_N (n + 32) else c.

Fixpoint toLowerCase (s : string) : string :=
  match s with
  | EmptyString => EmptyString
  | String c r => String (toLower c) (toLowerCase r)
  end.

Definition isEmpty (s : string) : bool :=
  match s with EmptyString => true | String _ _ => false end.

Fixpoint trimStart (s : string) : string :=
  match s with
  | EmptyString => EmptyString
  | String c r => if isWhiteSpace c then trimStart r else s
  end.

Fixpoint trimEnd (s : string) : string :=
  match s with
  | EmptyString => EmptyString
  | String c r =>
      let r' := trimEnd r in
      if isWhiteSpace c && isEmpty r' then EmptyString else String c r'
  end.

Definition trim (s : string) : string := trimEnd (trimStart s).

(** [s.includes(t)]: [t] occurs in [s] as a substring. *)
Fixpoint includes (s t : string) : bool :=
  String.prefix t s ||
  match s with
  | EmptyString => false
  | String _ r => includes r t
  end.

(** A string in a boolean context: only the empty string is falsy. *)
Definition truthy (s : string) : bool := negb (isEmpty s).

(** No white space in front. *)
Definition cleanStart (s : string) : Prop :=
  match s with
  | EmptyString => True
  | String c _ => isWhiteSpace c = false
  end.

End JsString.
Import JsString.

(** ** Values of the language *)

(** Abrupt completion of a call: the exception that was thrown. *)
Inductive exn : Type := TypeError | SyntaxError.

Inductive completion (A : Type) : Type :=
| Normal (a : A)
| Throw (e : exn).
Arguments Normal {A} a.
Arguments Throw {A} e.

Definition bind {A B : Type} (c : completion A) (k : A -> completion B)
  : completion B :=
  match c with
  | Normal a => k a
  | Throw e => Throw e
  end.

Notation "x <- c ;; k" := (bind c (fun x => k))
  (at level 61, c at next level, right associativity).

(** A number that may be NaN ([None]). *)
Definition number : Type := option Z.

Definition minus (a b : number) : number :=
  match a, b with
  | Some x, Some y => Some (x - y)%Z
  | _, _ => None
  end.

(** [a === b] on a field that holds a string or is [undefined]. *)
Definition strictEq (a b : option string) : bool :=
  match a, b with
  | Some x, Some y => String.eqb x y
  | None, None => true
  | _, _ => false
  end.

(** Conversion of such a field to a property key. *)
Definition propertyKey (v : option string) : string :=
  match v with
  | Some s => s
  | None => "undefined"
  end.

(** ** Data model *)

Record entry : Type := mkEntry {
  id : Z;
  mood : option string;
  note : option string;
  tags : option (list string);
  timestamp : number
}.

(** The module-level variables of the script. *)
Record app : Type := mkApp {
  moodEntries : list entry;
  currentFilter : string;
  currentSort : string;
  selectedTags : list string
}.

Definition initial : app := mkApp [] "All" "newest" [].

Definition withEntries (st : app) (l : list entry) : app :=
  mkApp l (currentFilter st) (currentSort st) (selectedTags st).

Definition withTags (st : app) (l : list string) : app :=
  mkApp (moodEntries st) (currentFilter st) (currentSort st) l.

Inductive notice : Type :=
| Toast (message : string)
| Modal (title message : string).

(** ** Tags management *)

(** [array.includes(s)] on an array of strings. *)
Definition arrayIncludes (l : list string) (s : string) : bool :=
  existsb (String.eqb s) l.

Definition addTag (tagName : string) (st : app) : app :=
  let trimmedTag := toLowerCase (trim tagName) in
  if truthy trimmedTag
     && negb (arrayIncludes (selectedTags st) trimmedTag)
     && (List.length (selectedTags st) <? 5)%nat
  then withTags st (selectedTags st ++ [trimmedTag])
  else st.

Definition removeTag (tagName : string) (st : app) : app :=
  withTags st (filter (fun tag => negb (String.eqb tag tagName)) (selectedTags st)).

(** The invariant of the buffer: at most five tags, no tag twice, every tag
    non-empty, trimmed and in lower case. *)
Definition normalTag (t : string) : Prop :=
  t <> "" /\ trim t = t /\ toLowerCase t = t.

Definition tagsInvariant (l : list string) : Prop :=
  (List.length l <= 5)%nat /\ NoDup l /\ Forall normalTag l.

(** ** Core business logic *)

(** [logMood]: [now] is the clock, [moodElement] the value of the checked
    radio button if any, [noteElement] the value of the note field if the
    field exists. *)
Definition logMood (now : Z) (moodElement noteElement : option string) (st : app)
  : app * notice :=
  match moodElement, noteElement with
  | None, _ => (st, Modal "Error" "Please select a mood.")
  | Some _, None => (st, Modal "Error" "Note field not found.")
  | Some moodValue, Some noteValue =>
      let newEntry :=
        mkEntry now (Some moodValue) (Some (String.substring 0 500 (trim noteValue)))
                (Some (selectedTags st)) (Some now) in
      (mkApp (newEntry :: moodEntries st) (currentFilter st) (currentSort st) [],
       Toast ("✨ Your " ++ moodValue ++ " mood has been logged!")%string)
  end.

Definition deleteEntry (confirmed : bool) (entryId : Z) (st : app) : app :=
  if confirmed
  then withEntries st (filter (fun e => negb (id e =? entryId)%Z) (moodEntries st))
  else st.

Definition clearAllData (confirmed : bool) (st : app) : app :=
  if confirmed then withEntries st [] else st.

(** *** Sorting *)

(** [Array.prototype.sort(cmp)] is a stable sort; a comparator result that
    is NaN counts as [+0].  For a comparator that orders the elements
    consistently the stable sorted arrangement is unique, and insertion
    computes it.  For a comparator that does not (NaN between elements that
    it orders otherwise) the standard leaves the order to the engine. *)
Definition positive (v : number) : bool :=
  match v with
  | Some z => (0 <? z)%Z
  | None => false
  end.

Fixpoint insert {A : Type} (cmp : A -> A -> number) (x : A) (l : list A) : list A :=
  match l with
  | [] => [x]
  | y :: r => if positive (cmp x y) then y :: insert cmp x r else x :: l
  end.

Fixpoint sort {A : Type} (cmp : A -> A -> number) (l : list A) : list A :=
  match l with
  | [] => []
  | x :: r => insert cmp x (sort cmp r)
  end.

Definition moodRank (key : string) : number :=
  if key =? "Amazing" then Some 5%Z
  else if key =? "Good" then Some 4%Z
  else if key =? "Neutral" then Some 3%Z
  else if key =? "Stressed" then Some 2%Z
  else if key =? "Terrible" then Some 1%Z
  else None.

Definition byNewest (a b : entry) : number := minus (timestamp b) (timestamp a).
Definition byOldest (a b : entry) : number := minus (timestamp a) (timestamp b).
Definition byMoodBest (a b : entry) : number :=
  minus (moodRank (propertyKey (mood b))) (moodRank (propertyKey (mood a))).
Definition byMoodWorst (a b : entry) : number :=
  minus (moodRank (propertyKey (mood a))) (moodRank (propertyKey (mood b))).

Definition sortEntries (currentSort : string) (entries : list entry) : list entry :=
  if currentSort =? "newest" then sort byNewest entries
  else if currentSort =? "oldest" then sort byOldest entries
  else if currentSort =? "mood-best" then sort byMoodBest entries
  else if currentSort =? "mood-worst" then sort byMoodWorst entries
  else entries.

(** ** Statistics *)

Definition msPerDay : Z := 86400000.

(** [d.setHours(0, 0, 0, 0); d.getTime()]: local midnight of the day of [t]. *)
Definition setHoursZero (tz t : Z) : Z := (t - (t + tz) mod msPerDay)%Z.

(** [d.setDate(d.getDate() - n)]: the same local time, [n] days earlier. *)
Definition daysBefore (n t : Z) : Z := (t - n * msPerDay)%Z.

(** The local calendar day of an instant, as a day number. *)
Definition dayOf (tz t : Z) : Z := ((t + tz) / msPerDay)%Z.

(** [x.getTime() === c.getTime()], [x.getTime() < c.getTime()] and [x >= c]
    for a date [x] that may be invalid and a valid date [c]: with NaN all
    three are false. *)
Definition sameInstant (x : number) (c : Z) : bool :=
  match x with Some t => (t =? c)%Z | None => false end.

Definition earlier (x : number) (c : Z) : bool :=
  match x with Some t => (t <? c)%Z | None => false end.

Definition notBefore (x : number) (c : Z) : bool :=
  match x with Some t => (c <=? t)%Z | None => false end.

(** [d.setHours(0, 0, 0, 0)] on a date that may be invalid. *)
Definition startOfDay (tz : Z) (x : number) : number :=
  option_map (setHoursZero tz) x.

(** The loop of [updateStats] over the entries, newest first. *)
Fixpoint streakLoop (tz : Z) (sortedEntries : list entry) (checkDate : Z) (streak : nat)
  : nat :=
  match sortedEntries with
  | [] => streak
  | e :: rest =>
      let entryDate := startOfDay tz (timestamp e) in
      if sameInstant entryDate checkDate
      then streakLoop tz rest (daysBefore 1 checkDate) (S streak)
      else if earlier entryDate checkDate
      then streak
      else streakLoop tz rest checkDate streak
  end.

Definition computeStreak (tz now : Z) (entries : list entry) : nat :=
  let today := setHoursZero tz now in
  let sortedEntries := sort byNewest entries in
  streakLoop tz sortedEntries today 0.

(** An object used as a map: its own properties in creation order. *)
Definition object (V : Type) : Type := list (string * V).

Fixpoint get {V : Type} (o : object V) (key : string) : option V :=
  match o with
  | [] => None
  | (k, v) :: r => if k =? key then Some v else get r key
  end.

Fixpoint set {V : Type} (o : object V) (key : string) (v : V) : object V :=
  match o with
  | [] => [(key, v)]
  | (k, w) :: r => if k =? key then (k, v) :: r else (k, w) :: set r key v
  end.

Definition digit (c : ascii) : option N :=
  let n := N_of_ascii c in
  if ((48 <=? n) && (n <=? 57))%N then Some (n - 48)%N else None.

Fixpoint digits (s : string) (acc : N) : option N :=
  match s with
  | EmptyString => Some acc
  | String c r =>
      match digit c with
      | Some d => digits r (10 * acc + d)%N
      | None => None
      end
  end.

(** A key is an array index when it is the canonical decimal form of an
    integer below 2^32 - 1. *)
Definition arrayIndex (key : string) : option N :=
  match key with
  | EmptyString => None
  | String c r =>
      if (N_of_ascii c =? 48)%N && negb (isEmpty r) then None
      else match digits key 0 with
           | Some n => if (n <? 4294967295)%N then Some n else None
           | None => None
           end
  end.

Fixpoint insertIndex (k : N * string) (l : list (N * string)) : list (N * string) :=
  match l with
  | [] => [k]
  | h :: r => if (fst k <=? fst h)%N then k :: l else h :: insertIndex k r
  end.

Fixpoint indexKeys (keys : list string) : list (N * string) :=
  match keys with
  | [] => []
  | k :: r =>
      match arrayIndex k with
      | Some n => insertIndex (n, k) (indexKeys r)
      | None => indexKeys r
      end
  end.

Definition isName (key : string) : bool :=
  match arrayIndex key with Some _ => false | None => true end.

(** [Object.keys(o)]: array indices in ascending order, then the other
    keys in creation order. *)
Definition keys {V : Type} (o : object V) : list string :=
  map snd (indexKeys (map fst o)) ++ filter isName (map fst o).

(** The names of the members of [Object.prototype], which every object
    literal inherits. *)
Definition inherited (key : string) : bool :=
  arrayIncludes
    ["constructor"; "__defineGetter__"; "__defineSetter__"; "hasOwnProperty";
     "__lookupGetter__"; "__lookupSetter__"; "isPrototypeOf";
     "propertyIsEnumerable"; "toString"; "valueOf"; "__proto__";
     "toLocaleString"]
    key.

(** [moodCounts[key] = (moodCounts[key] || 0) + 1] for a key that is not
    [inherited]: the lookup then finds an own property or nothing. *)
Definition increment (o : object nat) (key : string) : object nat :=
  let old := match get o key with
             | Some n => if (n =? 0)%nat then 0%nat else n
             | None => 0%nat
             end in
  set o key (old + 1)%nat.

Definition countMoods (entries : list entry) : object nat :=
  fold_left (fun o e => increment o (propertyKey (mood e))) entries [].

(** [x > y] where either side may be [undefined]. *)
Definition greater (x y : option nat) : bool :=
  match x, y with
  | Some a, Some b => (b <? a)%nat
  | _, _ => false
  end.

Definition mostCommon (entries : list entry) : string :=
  let moodCounts := countMoods entries in
  fold_left
    (fun a b => if greater (get moodCounts a) (get moodCounts b) then a else b)
    (keys moodCounts) "-".

Definition getMoodEmoji (m : string) : string :=
  if m =? "Amazing" then "🥳"
  else if m =? "Good" then "😊"
  else if m =? "Neutral" then "😐"
  else if m =? "Stressed" then "😟"
  else if m =? "Terrible" then "😩"
  else "😐".

(** What [updateStats] writes into the four elements of the dashboard. *)
Record stats : Type := mkStats {
  totalEntries : nat;
  currentStreak : nat;
  mostCommonMood : string;
  thisWeekEntries : nat
}.

Definition updateStats (tz now : Z) (entries : list entry) : stats :=
  let streak := computeStreak tz now entries in
  if (List.length entries =? 0)%nat
  then mkStats (List.length entries) streak "-" 0
  else
    let weekAgo := daysBefore 7 now in
    let thisWeek := filter (fun e => notBefore (timestamp e) weekAgo) entries in
    mkStats (List.length entries) streak (getMoodEmoji (mostCommon entries))
            (List.length thisWeek).

(** *** Mood distribution *)

Definition moods : list string :=
  ["amazing"; "good"; "neutral"; "stressed"; "terrible"].

Definition moodNames (key : string) : option string :=
  if key =? "amazing" then Some "Amazing"
  else if key =? "good" then Some "Good"
  else if key =? "neutral" then Some "Neutral"
  else if key =? "stressed" then Some "Stressed"
  else if key =? "terrible" then Some "Terrible"
  else None.

(** A quotient of the language: [None] when the divisor is zero, where the
    result is NaN or an infinity and no number. *)
Definition quotient (a b : Q) : option Q :=
  if Qeq_bool b 0 then None else Some (a / b)%Q.

Definition scale (x : option Q) (q : Q) : option Q :=
  option_map (fun v => (v * q)%Q) x.

Definition addNumbers (x y : option Q) : option Q :=
  match x, y with
  | Some a, Some b => Some (a + b)%Q
  | _, _ => None
  end.

(** One bar of the chart: the width in percent and the count shown. *)
Record bar : Type := mkBar {
  barMood : string;
  percentage : option Q;
  count : nat
}.

Definition ofNat (n : nat) : Q := inject_Z (Z.of_nat n).

Definition updateMoodDistribution (entries : list entry) : list bar :=
  let total := if (List.length entries =? 0)%nat then 1%nat else List.length entries in
  map (fun m =>
         let count :=
           List.length (filter (fun e => strictEq (mood e) (moodNames m)) entries) in
         mkBar m (scale (quotient (ofNat count) (ofNat total)) 100) count)
      moods.

Definition totalPercentage (bars : list bar) : option Q :=
  fold_right (fun b acc => addNumbers (percentage b) acc) (Some 0%Q) bars.

(** ** History: filter, search, sort *)

(** [x.toLowerCase()] on a field: a [TypeError] when the field is [undefined]. *)
Definition fieldToLowerCase (x : option string) : completion string :=
  match x with
  | Some s => Normal (toLowerCase s)
  | None => Throw TypeError
  end.

(** The callback of the search filter; [||] and [&&] evaluate from left to
    right and stop at the first operand that decides. *)
Definition matchesSearch (searchTerm : string) (e : entry) : completion bool :=
  n <- fieldToLowerCase (note e) ;;
  if includes n searchTerm then Normal true
  else
    m <- fieldToLowerCase (mood e) ;;
    if includes m searchTerm then Normal true
    else
      match tags e with
      | None => Normal false
      | Some l => Normal (existsb (fun tag => includes tag searchTerm) l)
      end.

(** [array.filter(f)] with a callback that may throw: the first exception
    ends the call. *)
Fixpoint filterWith {A : Type} (f : A -> completion bool) (l : list A)
  : completion (list A) :=
  match l with
  | [] => Normal []
  | x :: r =>
      b <- f x ;;
      r' <- filterWith f r ;;
      Normal (if b then x :: r' else r')
  end.

Definition filterByMood (currentFilter : string) (entries : list entry) : list entry :=
  if currentFilter =? "All" then entries
  else filter (fun e => strictEq (mood e) (Some currentFilter)) entries.

(** The search stage; [searchInput] is the value of the search field, [None]
    when the page has no such field. *)
Definition searchActive (searchInput : option string) : bool :=
  match searchInput with
  | Some value => truthy (trim value)
  | None => false
  end.

Definition filterBySearch (searchInput : option string) (entries : list entry)
  : completion (list entry) :=
  match searchInput with
  | Some value =>
      if truthy (trim value)
      then filterWith (matchesSearch (toLowerCase (trim value))) entries
      else Normal entries
  | None => Normal entries
  end.

Definition filterEntries (currentFilter : string) (searchInput : option string)
           (entries : list entry) : completion (list entry) :=
  filterBySearch searchInput (filterByMood currentFilter entries).

(** What [renderHistory] shows, on a page that has the history list and the
    message element: the sorted items, or a message. *)
Inductive history : Type :=
| Items (l : list entry)
| NoEntries (message : string).

Definition renderHistory (searchInput : option string) (st : app) : completion history :=
  filtered <- filterEntries (currentFilter st) searchInput (moodEntries st) ;;
  let sorted := sortEntries (currentSort st) filtered in
  if (List.length sorted =? 0)%nat
  then Normal (NoEntries
                 (if searchActive searchInput then "No entries match your search."
                  else if currentFilter st =? "All"
                       then "No entries yet. Log your first mood above!"
                       else ("No " ++ currentFilter st ++ " entries found.")%string))
  else Normal (Items sorted).

(** [renderAll]: of the five renderers only [renderHistory] can throw. *)
Definition renderAll (searchInput : option string) (st : app) : completion unit :=
  _ <- renderHistory searchInput st ;; Normal tt.

(** ** Import *)

(** What [JSON.parse] makes of the file: nothing (it throws), a value that is
    not an array, or an array whose elements are entry objects or [null]. *)
Inductive scalar : Type :=
| JNull
| JBool (b : bool)
| JNumber (n : Z)
| JString (s : string)
| JObject.

Inductive payload : Type :=
| Malformed
| NotArray (v : scalar)
| ArrayOf (items : list (option entry)).

Definition jsonParse (p : payload) : completion payload :=
  match p with
  | Malformed => Throw SyntaxError
  | _ => Normal p
  end.

(** An entry object of the payload carries as timestamp the time value that
    [new Date] gives to the value found in the file: the instant of a date
    string or of a number, the epoch for [null], NaN for a missing or
    unreadable value. *)
Definition newDate (t : number) : number := t.

(** [imported.forEach(entry => entry.timestamp = new Date(entry.timestamp))]:
    reading a property of [null] throws. *)
Fixpoint reviveTimestamps (items : list (option entry)) : completion (list entry) :=
  match items with
  | [] => Normal []
  | None :: _ => Throw TypeError
  | Some e :: r =>
      let e' := mkEntry (id e) (mood e) (note e) (tags e) (newDate (timestamp e)) in
      r' <- reviveTimestamps r ;;
      Normal (e' :: r')
  end.

(** The body of the [try] block of the [onload] handler: the state it
    leaves, and how it completes.  [saveData] catches its own exceptions and
    does not touch the variables of the script. *)
Definition tryImport (searchInput : option string) (p : payload) (st : app)
  : app * completion notice :=
  match jsonParse p with
  | Throw e => (st, Throw e)
  | Normal (ArrayOf items) =>
      match reviveTimestamps items with
      | Throw e => (st, Throw e)
      | Normal imported =>
          let st' := withEntries st (imported ++ moodEntries st) in
          (st', _ <- renderAll searchInput st' ;;
                Normal (Toast "Data imported successfully"))
      end
  | Normal _ => (st, Normal (Modal "Import Error" "Invalid data format."))
  end.

(** [importData] once the file is read; [file] is [None] when no file was
    chosen. *)
Definition importData (searchInput : option string) (file : option payload) (st : app)
  : app * option notice :=
  match file with
  | None => (st, None)
  | Some p =>
      match tryImport searchInput p st with
      | (st', Normal n) => (st', Some n)
      | (st', Throw _) => (st', Some (Modal "Import Error" "Could not parse JSON."))
      end
  end.

(** An array of entry objects only, as [JSON.parse] returns it. *)
Definition arrayOfEntries (imported : list entry) : payload :=
  ArrayOf (map Some imported).

(** ** Vocabulary of the statements *)

(** The tag that [addTag] stores for a name. *)
Definition normalize (tagName : string) : string := toLowerCase (trim tagName).

Definition addTags (names : list string) (st : app) : app :=
  fold_left (fun s name => addTag name s) names st.

(** How many entries have a mood with the given property key. *)
Definition occurrences (entries : list entry) (key : string) : nat :=
  List.length (filter (fun e => propertyKey (mood e) =? key) entries).

(** The value that [moodCounts] holds for a key after the given entries. *)
Definition counted (entries : list entry) (key : string) : option nat :=
  match occurrences entries key with
  | O => None
  | S n => Some (S n)
  end.

(** [r] is a key of [ks] with the greatest value of [f], and the last such
    key of [ks]. *)
Definition lastMaximum (f : string -> nat) (ks : list string) (r : string) : Prop :=
  exists pre post,
    ks = pre ++ r :: post /\
    (forall k, In k pre -> (f k <= f r)%nat) /\
    (forall k, In k post -> (f k < f r)%nat).

(** The same, for the first such key of [ks]. *)
Definition firstMaximum (f : string -> nat) (ks : list string) (r : string) : Prop :=
  exists pre post,
    ks = pre ++ r :: post /\
    (forall k, In k pre -> (f k < f r)%nat) /\
    (forall k, In k post -> (f k <= f r)%nat).

(** The order in which the streak loop expects the entries. *)
Definition newestFirst (a b : entry) : Prop :=
  exists ta tb, timestamp a = Some ta /\ timestamp b = Some tb /\ (tb <= ta)%Z.

(** Every entry has a valid date. *)
Definition validTimes (entries : list entry) : Prop :=
  Forall (fun e => timestamp e <> None) entries.

(** No mood key is the name of a member of [Object.prototype]. *)
Definition plainMoods (entries : list entry) : Prop :=
  Forall (fun e => inherited (propertyKey (mood e)) = false) entries.

(** The keys of a list in the order of their first occurrence. *)
Definition firstOccurrences (l : list string) : list string :=
  fold_left (fun seen k => if arrayIncludes seen k then seen else seen ++ [k]) l [].

(** The moods in the order in which the specification lists them. *)
Definition moodEnumeration : list string :=
  ["Amazing"; "Good"; "Neutral"; "Stressed"; "Terrible"].

(** Local midnight at the start of a day, given by its day number. *)
Definition midnight (tz day : Z) : Z := (msPerDay * day - tz)%Z.

(** Some entry is dated on the given local day. *)
Definition entryOn (tz : Z) (entries : list entry) (day : Z) : Prop :=
  exists e t, In e entries /\ timestamp e = Some t /\ dayOf tz t = day.

Definition knownMood (e : entry) : Prop :=
  exists m, In m moods /\ mood e = moodNames m.

Definition mood_eq_dec (a b : option string) : {a = b} + {a <> b}.
Proof. decide equality. apply string_dec. Defined.

(** How many entries have exactly the given value in their [mood] field. *)
Definition withMood (entries : list entry) (m : option string) : nat :=
  count_occ mood_eq_dec (map mood entries) m.

(** The divisor of the distribution: [moodEntries.length || 1]. *)
Definition divisor (entries : list entry) : nat :=
  match entries with [] => 1%nat | _ => List.length entries end.

(** The entry of the import scenario; its timestamp is 2024-01-01T00:00:00Z. *)
Definition sampleEntry : entry :=
  mkEntry 1 (Some "Good") (Some "x") (Some []) (Some 1704067200000%Z).

(** ** Further functions of the script *)

(** *** Theme *)

(** The part of the page and of the storage that the theme uses: the
    [data-theme] attribute of the document, the item stored under
    [THEME_KEY], and the text of the toggle button (which the page has). *)
Record page : Type := mkPage {
  dataTheme : option string;
  savedTheme : option string;
  themeButton : string
}.

Definition themeIcon (theme : string) : string :=
  if theme =? "light" then "☀️" else "🌙".

Definition toggleTheme (p : page) : page * notice :=
  let newTheme := if strictEq (dataTheme p) (Some "light") then "dark" else "light" in
  (mkPage (Some newTheme) (Some newTheme) (themeIcon newTheme),
   Toast ("Switched to " ++ newTheme ++ " theme")%string).

(** [localStorage.getItem(THEME_KEY) || 'dark'] *)
Definition loadTheme (p : page) : page :=
  let saved := match savedTheme p with
               | Some s => if truthy s then s else "dark"
               | None => "dark"
               end in
  mkPage (Some saved) (savedTheme p) (themeIcon saved).

(** *** Mood filter buttons *)

Definition filterMoods (m : string) (st : app) : app :=
  mkApp (moodEntries st) m (currentSort st) (selectedTags st).

(** *** Calendar *)





(** *** Chart *)

(** [Object.keys(moodMap)] *)
Definition chartMoods : list string :=
  ["Terrible"; "Stressed"; "Neutral"; "Good"; "Amazing"].

Definition moodColors (m : string) : option string :=
  if m =? "Amazing" then Some "#10b981"
  else if m =? "Good" then Some "#3b82f6"
  else if m =? "Neutral" then Some "#f59e0b"
  else if m =? "Stressed" then Some "#ef4444"
  else if m =? "Terrible" then Some "#991b1b"
  else None.

Record chartBar : Type := mkChartBar {
  chartLabel : string;
  chartHeight : option Q;
  chartColor : option string;
  chartCount : nat
}.

Definition renderChart (entries : list entry) : list chartBar :=
  let total := if (List.length entries =? 0)%nat then 1%nat else List.length entries in
  map (fun m =>
         let count :=
           List.length (filter (fun e => strictEq (mood e) (Some m)) entries) in
         mkChartBar m (scale (quotient (ofNat count) (ofNat total)) 100)
                    (moodColors m) count)
      chartMoods.

(** *** Storage and export *)

(** An entry as [JSON.stringify] writes it and as the payload holds it:
    the fields it has, with a valid date as its ISO string and an Invalid
    Date as [null], which [new Date] reads as the epoch. *)
Definition written (e : entry) : entry :=
  mkEntry (id e) (mood e) (note e) (tags e)
          match timestamp e with Some t => Some t | None => Some 0%Z end.

(** The item stored under [STORAGE_KEY] is modelled, like an imported file,
    by what [JSON.parse] makes of it.  The storage accepts the write. *)
Definition saveData (st : app) : option payload :=
  Some (arrayOfEntries (map written (moodEntries st))).

Definition exportData (st : app) : payload * notice :=
  (arrayOfEntries (map written (moodEntries st)), Toast "Data exported successfully").

(** The callback of the [map] of [loadData]:
    [{...entry, timestamp: new Date(entry.timestamp), tags: entry.tags || []}]. *)
Definition loadEntry (e : entry) : entry :=
  mkEntry (id e) (mood e) (note e)
          (Some match tags e with Some l => l | None => [] end)
          (newDate (timestamp e)).

Fixpoint loadEntries (items : list (option entry)) : completion (list entry) :=
  match items with
  | [] => Normal []
  | None :: _ => Throw TypeError
  | Some e :: r =>
      r' <- loadEntries r ;;
      Normal (loadEntry e :: r')
  end.

(** [loadData] assigns the parsed value to [moodEntries] before it maps over
    it.  When the value is not an array of entry objects the [map] throws
    and [moodEntries] keeps a value that is no list of entries:
    [Corrupted]. *)
Inductive loaded : Type :=
| Loaded (st : app) (n : option notice)
| Corrupted (n : notice).

Definition loadError : notice :=
  Modal "Load Error" "Could not load saved data. Starting fresh.".

(** [stored] is [None] when the storage has no item or an empty one. *)
Definition loadData (stored : option payload) (st : app) : loaded :=
  match stored with
  | None => Loaded st None
  | Some p =>
      match jsonParse p with
      | Throw _ => Loaded st (Some loadError)
      | Normal (ArrayOf items) =>
          match loadEntries items with
          | Normal l => Loaded (withEntries st l) None
          | Throw _ => Corrupted loadError
          end
      | Normal _ => Corrupted loadError
      end
  end.

(** *** What the user can do without importing *)

Inductive action : Type :=
| AddTag (name : string)
| RemoveTag (name : string)
| LogMood (now : Z) (moodElement noteElement : option string)
| DeleteEntry (confirmed : bool) (entryId : Z)
| ClearAllData (confirmed : bool)
| FilterMoods (m : string).

Definition perform (a : action) (st : app) : app :=
  match a with
  | AddTag name => addTag name st
  | RemoveTag name => removeTag name st
  | LogMood now moodElement noteElement =>
      fst (logMood now moodElement noteElement st)
  | DeleteEntry confirmed entryId => deleteEntry confirmed entryId st
  | ClearAllData confirmed => clearAllData confirmed st
  | FilterMoods m => filterMoods m st
  end.

Definition run (actions : list action) (st : app) : app :=
  fold_left (fun s a => perform a s) actions st.

(** The shape of an entry that [logMood] creates. *)
Definition entryInvariant (e : entry) : Prop :=
  mood e <> None /\
  (exists n, note e = Some n /\ (String.length n <= 500)%nat) /\
  (exists l, tags e = Some l /\ tagsInvariant l).

Definition storeInvariant (st : app) : Prop :=
  tagsInvariant (selectedTags st) /\ Forall entryInvariant (moodEntries st).

(** The search term that [renderHistory] derives from the search field. *)
Definition searchTermOf (value : string) : string := toLowerCase (trim value).

(** The entry passes the mood filter. *)
Definition passesMood (currentFilter : string) (e : entry) : bool :=
  (currentFilter =? "All") || strictEq (mood e) (Some currentFilter).

(** The sum of the values of an object of counts. *)
Definition totalCount (o : object nat) : nat := list_sum (map snd o).

(** Orders on entries, for the statements about [sortEntries]. *)
Definition oldestFirst (a b : entry) : Prop :=
  exists ta tb, timestamp a = Some ta /\ timestamp b = Some tb /\ (ta <= tb)%Z.

Definition ranked (e : entry) (r : Z) : Prop :=
  moodRank (propertyKey (mood e)) = Some r.

Definition bestFirst (a b : entry) : Prop :=
  exists ra rb, ranked a ra /\ ranked b rb /\ (rb <= ra)%Z.

Definition worstFirst (a b : entry) : Prop :=
  exists ra rb, ranked a ra /\ ranked b rb /\ (ra <= rb)%Z.

Definition sameTime (t : Z) (e : entry) : bool := sameInstant (timestamp e) t.

Definition sameMood (key : string) (e : entry) : bool :=
  propertyKey (mood e) =? key.




(** * Properties *)

(** ** String primitives *)

Lemma isWhiteSpace_toLower c : isWhiteSpace (toLower c) = isWhiteSpace c.
Proof. destruct c as [[] [] [] [] [] [] [] []]; reflexivity. Qed.

Lemma toLower_idem c : toLower (toLower c) = toLower c.
Proof. destruct c as [[] [] [] [] [] [] [] []]; reflexivity. Qed.

Lemma toLowerCase_idem s : toLowerCase (toLowerCase s) = toLowerCase s.
Proof.
  induction s as [|c r IH]; simpl; [reflexivity|].
  now rewrite toLower_idem, IH.
Qed.

Lemma isEmpty_toLowerCase s : isEmpty (toLowerCase s) = isEmpty s.
Proof. now destruct s. Qed.

Lemma isEmpty_true s : isEmpty s = true <-> s = "".
Proof. destruct s; simpl; split; congruence. Qed.

Lemma trimStart_toLowerCase s :
  trimStart (toLowerCase s) = toLowerCase (trimStart s).
Proof.
  induction s as [|c r IH]; simpl; [reflexivity|].
  rewrite isWhiteSpace_toLower.
  destruct (isWhiteSpace c); [exact IH | reflexivity].
Qed.

Lemma trimEnd_toLowerCase s :
  trimEnd (toLowerCase s) = toLowerCase (trimEnd s).
Proof.
  induction s as [|c r IH]; simpl; [reflexivity|].
  rewrite isWhiteSpace_toLower, IH, isEmpty_toLowerCase.
  now destruct (isWhiteSpace c && isEmpty (trimEnd r)).
Qed.

Lemma trim_toLowerCase s : trim (toLowerCase s) = toLowerCase (trim s).
Proof. unfold trim. now rewrite trimStart_toLowerCase, trimEnd_toLowerCase. Qed.

Lemma trimStart_cleanStart s : cleanStart (trimStart s).
Proof.
  induction s as [|c r IH]; simpl; [exact I|].
  destruct (isWhiteSpace c) eqn:E; [exact IH | exact E].
Qed.

Lemma trimStart_fix s : cleanStart s -> trimStart s = s.
Proof. destruct s as [|c r]; simpl; [reflexivity|]. now intros ->. Qed.

Lemma trimEnd_cleanStart s : cleanStart s -> cleanStart (trimEnd s).
Proof.
  destruct s as [|c r]; simpl; [exact (fun H => H)|].
  intros H. rewrite H. simpl. exact H.
Qed.

Lemma trimEnd_idem s : trimEnd (trimEnd s) = trimEnd s.
Proof.
  induction s as [|c r IH]; simpl; [reflexivity|].
  destruct (isWhiteSpace c && isEmpty (trimEnd r)) eqn:E; [reflexivity|].
  simpl. now rewrite IH, E.
Qed.

Lemma trim_idem s : trim (trim s) = trim s.
Proof.
  unfold trim.
  rewrite (trimStart_fix (trimEnd (trimStart s))).
  - apply trimEnd_idem.
  - apply trimEnd_cleanStart, trimStart_cleanStart.
Qed.

Lemma includes_empty s : includes s "" = true.
Proof. destruct s; reflexivity. Qed.

(** ** The selected-tags buffer *)

Lemma normalize_normal t : normalize t <> "" -> normalTag (normalize t).
Proof.
  intros H. unfold normalTag, normalize in *. repeat split.
  - exact H.
  - now rewrite trim_toLowerCase, trim_idem.
  - apply toLowerCase_idem.
Qed.

Lemma normalize_blank t : trim t = "" -> normalize t = "".
Proof. unfold normalize. now intros ->. Qed.

Lemma arrayIncludes_In l s : arrayIncludes l s = true <-> In s l.
Proof.
  unfold arrayIncludes. rewrite existsb_exists. split.
  - intros [x [Hx E]]. apply String.eqb_eq in E. now subst.
  - intros H. exists s. split; [exact H | apply String.eqb_refl].
Qed.

Lemma truthy_true s : truthy s = true <-> s <> "".
Proof. destruct s; unfold truthy; simpl; split; congruence. Qed.

(** The three ways in which [addTag] leaves the buffer alone, and what it
    does otherwise. *)
Lemma addTag_cases t st :
  (addTag t st = st /\
   (normalize t = "" \/ In (normalize t) (selectedTags st)
    \/ (5 <= List.length (selectedTags st))%nat)) \/
  (addTag t st = withTags st (selectedTags st ++ [normalize t]) /\
   normalize t <> "" /\ ~ In (normalize t) (selectedTags st)
   /\ (List.length (selectedTags st) < 5)%nat).
Proof.
  unfold addTag. fold (normalize t).
  destruct (truthy (normalize t)) eqn:T; simpl.
  - destruct (arrayIncludes (selectedTags st) (normalize t)) eqn:I; simpl.
    + left. split; [reflexivity|]. right. left. now apply arrayIncludes_In.
    + destruct (List.length (selectedTags st) <? 5)%nat eqn:L.
      * right. apply Nat.ltb_lt in L. apply truthy_true in T.
        repeat split; auto.
        intros H. apply arrayIncludes_In in H. congruence.
      * left. apply Nat.ltb_ge in L. auto.
  - left. split; [reflexivity|]. left.
    destruct (normalize t); [reflexivity | discriminate].
Qed.

Lemma addTag_invariant t st :
  tagsInvariant (selectedTags st) -> tagsInvariant (selectedTags (addTag t st)).
Proof.
  intros (Hlen & Hnd & Hall).
  destruct (addTag_cases t st) as [[-> _] | (-> & Hne & Hin & Hlt)].
  - now repeat split.
  - simpl. repeat split.
    + rewrite length_app. simpl. lia.
    + apply NoDup_app; [exact Hnd | repeat constructor; intros [] | ].
      intros x Hx [<- | []]. contradiction.
    + apply Forall_app. split; [exact Hall|].
      constructor; [now apply normalize_normal | constructor].
Qed.

Lemma removeTag_invariant t st :
  tagsInvariant (selectedTags st) -> tagsInvariant (selectedTags (removeTag t st)).
Proof.
  intros (Hlen & Hnd & Hall). simpl. repeat split.
  - pose proof (filter_length_le (fun tag => negb (tag =? t)) (selectedTags st)). lia.
  - now apply NoDup_filter.
  - rewrite Forall_forall in *. intros x Hx. apply filter_In in Hx. now apply Hall.
Qed.

Lemma firstn_full {A : Type} (n : nat) (l r : list A) :
  List.length l = n -> firstn n (l ++ r) = l.
Proof.
  intros <-. rewrite firstn_app, Nat.sub_diag, firstn_all. simpl.
  apply app_nil_r.
Qed.

Lemma addTags_retains names : forall st,
  (List.length (selectedTags st) <= 5)%nat ->
  NoDup (selectedTags st ++ map normalize names) ->
  Forall (fun name => normalize name <> "") names ->
  selectedTags (addTags names st) = firstn 5 (selectedTags st ++ map normalize names).
Proof.
  induction names as [|n names IH]; intros st Hle Hnd Hne.
  - change (addTags [] st) with st. simpl map.
    rewrite app_nil_r. now rewrite firstn_all2.
  - change (addTags (n :: names) st) with (addTags names (addTag n st)).
    simpl map in *.
    inversion Hne as [|? ? Hn Hne']; subst.
    destruct (addTag_cases n st) as [[E [H|[H|H]]] | (E & _ & _ & Hlt)].
    + contradiction.
    + exfalso. apply NoDup_remove_2 in Hnd. apply Hnd.
      apply in_or_app. now left.
    + assert (Hfive : List.length (selectedTags st) = 5%nat) by lia.
      rewrite E, IH; [ | exact Hle | now apply NoDup_remove_1 in Hnd | exact Hne'].
      now rewrite !firstn_full.
    + rewrite E, IH; cbn [selectedTags withTags].
      * now rewrite <- app_assoc.
      * rewrite length_app. simpl. lia.
      * now rewrite <- app_assoc.
      * exact Hne'.
Qed.

(** C9. The selected-tags buffer starts within its invariant (at most five
    tags, none twice, each non-empty, trimmed and in lower case) and [addTag]
    and [removeTag] keep it there.  Adding names whose stored forms are
    distinct and non-empty to an empty buffer keeps the first five of them,
    so of six only five remain; adding a name whose stored form is already in
    the buffer changes nothing; adding a name of white space only changes
    nothing. *)
Theorem selectedTags_invariant :
  tagsInvariant (selectedTags initial) /\
  (forall st name,
      tagsInvariant (selectedTags st) ->
      tagsInvariant (selectedTags (addTag name st)) /\
      tagsInvariant (selectedTags (removeTag name st))) /\
  (forall st names,
      selectedTags st = [] ->
      NoDup (map normalize names) ->
      Forall (fun name => normalize name <> "") names ->
      selectedTags (addTags names st) = firstn 5 (map normalize names)) /\
  (forall st name, In (normalize name) (selectedTags st) -> addTag name st = st) /\
  (forall st name, trim name = "" -> addTag name st = st).
Proof.
  split; [|split; [|split; [|split]]].
  - repeat split; simpl; [lia | constructor | constructor].
  - intros st name H. split; [now apply addTag_invariant | now apply removeTag_invariant].
  - intros st names Hnil Hnd Hne.
    rewrite addTags_retains; rewrite ?Hnil; simpl; auto with arith.
  - intros st name Hin.
    destruct (addTag_cases name st) as [[E _] | (_ & _ & Hnot & _)];
      [exact E | contradiction].
  - intros st name Hblank.
    destruct (addTag_cases name st) as [[E _] | (_ & Hne & _)]; [exact E|].
    now apply normalize_blank in Hblank.
Qed.

Lemma selectedTags_invariant_witness :
  selectedTags
    (addTags ["Work"; " HOME "; "gym"; "Sleep"; "food"; "Rain"] initial)
  = ["work"; "home"; "gym"; "sleep"; "food"]
  /\ addTag " work" (addTags ["Work"] initial) = addTags ["Work"] initial
  /\ addTag "   " initial = initial.
Proof.
  destruct selectedTags_invariant as (_ & _ & Hsix & Hdup & Hblank).
  split; [|split].
  - rewrite (Hsix initial); [reflexivity | reflexivity | | ].
    + repeat constructor; simpl; intuition discriminate.
    + repeat constructor; discriminate.
  - apply Hdup. simpl. now left.
  - apply Hblank. reflexivity.
Defined.

(** ** Sorting *)

Section SortFacts.

Context {A : Type}.
Variable cmp : A -> A -> number.

Lemma insert_perm x l : Permutation (insert cmp x l) (x :: l).
Proof.
  induction l as [|y r IH]; simpl; [reflexivity|].
  destruct (positive (cmp x y)); [|reflexivity].
  rewrite IH. apply perm_swap.
Qed.

Lemma sort_perm l : Permutation (sort cmp l) l.
Proof.
  induction l as [|x r IH]; simpl; [reflexivity|].
  rewrite insert_perm. now constructor.
Qed.

Lemma sort_In l x : In x (sort cmp l) <-> In x l.
Proof.
  split; apply Permutation_in; [apply sort_perm | symmetry; apply sort_perm].
Qed.

(** An order that the comparator decides on the elements that satisfy [P]. *)
Variable P : A -> Prop.
Variable precedes : A -> A -> Prop.
Hypothesis precedes_trans :
  forall a b c, P a -> P b -> P c -> precedes a b -> precedes b c -> precedes a c.
Hypothesis positive_after :
  forall a b, P a -> P b -> positive (cmp a b) = true -> precedes b a.
Hypothesis other_before :
  forall a b, P a -> P b -> positive (cmp a b) = false -> precedes a b.

Lemma insert_sorted x l :
  P x -> Forall P l ->
  StronglySorted precedes l -> StronglySorted precedes (insert cmp x l).
Proof.
  intros Hx HP Hs. induction Hs as [|y r Hs IH Hall]; simpl.
  - repeat constructor.
  - inversion HP as [|? ? Hy Hr]; subst.
    destruct (positive (cmp x y)) eqn:E.
    + constructor; [now apply IH|].
      rewrite Forall_forall in *. intros z Hz.
      apply (Permutation_in _ (insert_perm x r)) in Hz.
      destruct Hz as [<- | Hz]; [now apply positive_after | now apply Hall].
    + constructor; [now constructor|].
      constructor; [now apply other_before|].
      rewrite Forall_forall in *. intros z Hz.
      apply precedes_trans with y; auto.
Qed.

Lemma sort_sorted l : Forall P l -> StronglySorted precedes (sort cmp l).
Proof.
  induction 1 as [|x r Hx Hr IH]; simpl; [constructor|].
  apply insert_sorted; [exact Hx | | exact IH].
  rewrite Forall_forall in *. intros z Hz. apply Hr.
  now apply (Permutation_in _ (sort_perm r)).
Qed.

End SortFacts.

Section SortReverse.

Context {A : Type}.
Variable cmp : A -> A -> number.

Lemma insert_last x l :
  Forall (fun y => positive (cmp x y) = true) l -> insert cmp x l = l ++ [x].
Proof.
  induction 1 as [|y r Hy _ IH]; simpl; [reflexivity|].
  now rewrite Hy, IH.
Qed.

(** Sorting a list in which every element belongs after all the later ones
    reverses it. *)
Lemma sort_reverses l :
  StronglySorted (fun a b => positive (cmp a b) = true) l -> sort cmp l = rev l.
Proof.
  induction 1 as [|x r _ IH Hall]; simpl; [reflexivity|].
  rewrite IH. apply insert_last.
  rewrite Forall_forall in *. intros y Hy. apply Hall. now apply in_rev.
Qed.

End SortReverse.

Lemma sort_byNewest_sorted l :
  validTimes l -> StronglySorted newestFirst (sort byNewest l).
Proof.
  intros H.
  apply (sort_sorted byNewest (fun e => timestamp e <> None)); [ | | | exact H].
  - intros a b c _ _ _ (ta & tb & Ha & Hb & Hab) (tb' & tc & Hb' & Hc & Hbc).
    exists ta, tc. repeat split; auto. assert (tb = tb') by congruence. lia.
  - intros a b Ha Hb Hp. unfold byNewest in Hp.
    destruct (timestamp a) as [ta|] eqn:Ea, (timestamp b) as [tb|] eqn:Eb;
      try congruence.
    simpl in Hp. apply Z.ltb_lt in Hp. exists tb, ta. repeat split; auto. lia.
  - intros a b Ha Hb Hp. unfold byNewest in Hp.
    destruct (timestamp a) as [ta|] eqn:Ea, (timestamp b) as [tb|] eqn:Eb;
      try congruence.
    simpl in Hp. apply Z.ltb_ge in Hp. exists ta, tb. repeat split; auto. lia.
Qed.

Lemma strictly_sorted l :
  StronglySorted newestFirst l -> NoDup (map timestamp l) ->
  StronglySorted (fun a b => positive (byOldest a b) = true) l.
Proof.
  induction 1 as [|x r _ IH Hall]; intros Hnd; [constructor|].
  simpl in Hnd. apply NoDup_cons_iff in Hnd. destruct Hnd as [Hx Hnd].
  constructor; [now apply IH|].
  rewrite Forall_forall in *. intros y Hy.
  destruct (Hall y Hy) as (tx & ty & Ex & Ey & Hle).
  unfold byOldest. rewrite Ex, Ey. simpl. apply Z.ltb_lt.
  assert (ty <> tx).
  { intros E. apply Hx. rewrite Ex, <- E, <- Ey. now apply in_map. }
  lia.
Qed.

(** C8, as the code has it.  When every entry has a valid date and no two
    entries have the same timestamp, sorting the newest-first arrangement of
    the entries with mode "oldest" gives exactly that arrangement
    reversed. *)
Theorem oldest_reverses_newest (entries : list entry) :
  validTimes entries ->
  NoDup (map timestamp entries) ->
  sortEntries "oldest" (sortEntries "newest" entries)
  = rev (sortEntries "newest" entries).
Proof.
  intros Hvalid Hnd.
  change (sortEntries "newest" entries) with (sort byNewest entries).
  change (sortEntries "oldest" (sort byNewest entries))
    with (sort byOldest (sort byNewest entries)).
  apply sort_reverses, strictly_sorted.
  - now apply sort_byNewest_sorted.
  - apply (Permutation_NoDup (l := map timestamp entries)); [|exact Hnd].
    apply Permutation_map. symmetry. apply sort_perm.
Qed.

Lemma oldest_reverses_newest_witness :
  let a := mkEntry 1 (Some "Good") (Some "walk") (Some ["sun"]) (Some 2000%Z) in
  let b := mkEntry 2 (Some "Terrible") None None (Some 5000%Z) in
  let c := mkEntry 3 None (Some "") (Some []) (Some 3000%Z) in
  validTimes [a; b; c] /\
  NoDup (map timestamp [a; b; c]) /\
  sortEntries "newest" [a; b; c] = [b; c; a] /\
  sortEntries "oldest" (sortEntries "newest" [a; b; c]) = [a; c; b].
Proof.
  intros a b c.
  assert (Hvalid : validTimes [a; b; c]) by (repeat constructor; discriminate).
  assert (Hnd : NoDup (map timestamp [a; b; c])).
  { repeat constructor; simpl; intuition discriminate. }
  split; [exact Hvalid|]. split; [exact Hnd|]. split; [reflexivity|].
  rewrite (oldest_reverses_newest [a; b; c] Hvalid Hnd). reflexivity.
Defined.

(** C8 as the specification words it (distinct timestamps suffice) fails.
    An import stores an Invalid Date for an entry whose timestamp cannot be
    read.  Next to one entry with a valid date the two timestamps differ,
    yet every comparison answers NaN, which the sort reads as "equal": both
    modes leave the two entries in place, and the second sort does not
    reverse the first. *)
Lemma oldest_keeps_invalid_date :
  let a := mkEntry 1 (Some "Good") (Some "") (Some []) (Some 1000%Z) in
  let b := mkEntry 2 (Some "Good") (Some "") (Some []) None in
  NoDup (map timestamp [a; b]) /\
  sortEntries "newest" [a; b] = [a; b] /\
  sortEntries "oldest" (sortEntries "newest" [a; b]) = [a; b] /\
  sortEntries "oldest" (sortEntries "newest" [a; b])
  <> rev (sortEntries "newest" [a; b]).
Proof.
  intros a b. split.
  - repeat constructor; simpl; intuition discriminate.
  - split; [reflexivity|]. split; [reflexivity|]. discriminate.
Qed.

(** ** Streak *)

Lemma setHoursZero_midnight tz t : setHoursZero tz t = midnight tz (dayOf tz t).
Proof.
  unfold setHoursZero, midnight, dayOf.
  pose proof (Z.div_mod (t + tz) msPerDay) as H.
  unfold msPerDay in *. lia.
Qed.

Lemma midnight_eqb tz d d' : (midnight tz d =? midnight tz d')%Z = (d =? d')%Z.
Proof.
  unfold midnight, msPerDay.
  destruct (Z.eqb_spec d d') as [->|N]; [apply Z.eqb_refl|].
  apply Z.eqb_neq. lia.
Qed.

Lemma midnight_ltb tz d d' : (midnight tz d <? midnight tz d')%Z = (d <? d')%Z.
Proof.
  unfold midnight, msPerDay.
  destruct (Z.ltb_spec d d') as [L|L]; [apply Z.ltb_lt | apply Z.ltb_ge]; lia.
Qed.

Lemma daysBefore_midnight tz d : daysBefore 1 (midnight tz d) = midnight tz (d - 1).
Proof. unfold daysBefore, midnight, msPerDay. lia. Qed.

Lemma dayOf_mono tz t t' : (t <= t')%Z -> (dayOf tz t <= dayOf tz t')%Z.
Proof.
  intros H. unfold dayOf, msPerDay. apply Z.div_le_mono; lia.
Qed.

Lemma sameInstant_day tz x d :
  sameInstant (startOfDay tz x) (midnight tz d)
  = sameInstant (option_map (dayOf tz) x) d.
Proof.
  destruct x as [t|]; simpl; [|reflexivity].
  now rewrite setHoursZero_midnight, midnight_eqb.
Qed.

Lemma earlier_day tz x d :
  earlier (startOfDay tz x) (midnight tz d) = earlier (option_map (dayOf tz) x) d.
Proof.
  destruct x as [t|]; simpl; [|reflexivity].
  now rewrite setHoursZero_midnight, midnight_ltb.
Qed.

Lemma streakLoop_acc tz l : forall c k,
  streakLoop tz l c k = (k + streakLoop tz l c 0)%nat.
Proof.
  induction l as [|e r IH]; intros c k; simpl; [lia|].
  destruct (sameInstant (startOfDay tz (timestamp e)) c).
  - rewrite (IH _ (S k)), (IH _ 1%nat). lia.
  - destruct (earlier (startOfDay tz (timestamp e)) c); [lia | apply IH].
Qed.

(** The loop, started at midnight of day [d] on entries with valid dates in
    newest-first order, counts the days [d], [d - 1], ... that have an
    entry, up to the first day that has none. *)
Lemma streakLoop_spec tz l : forall d,
  validTimes l ->
  StronglySorted newestFirst l ->
  let j := Z.of_nat (streakLoop tz l (midnight tz d) 0) in
  (forall i, (0 <= i < j)%Z -> entryOn tz l (d - i)) /\
  (forall e t, In e l -> timestamp e = Some t -> dayOf tz t <> (d - j)%Z).
Proof.
  induction l as [|e r IH]; intros d Hv Hs; simpl.
  - split; [lia | intros e t []].
  - inversion Hs as [|? ? Hr Hall]; subst.
    inversion Hv as [|? ? He Hvr]; subst.
    rewrite sameInstant_day, earlier_day.
    destruct (timestamp e) as [te|] eqn:Ee; [simpl | congruence].
    destruct (Z.eqb_spec (dayOf tz te) d) as [Hd|Hd].
    + rewrite daysBefore_midnight, streakLoop_acc.
      destruct (IH (d - 1)%Z Hvr Hr) as [Hdays Hgap].
      set (j := Z.of_nat (streakLoop tz r (midnight tz (d - 1)) 0)) in *.
      replace (Z.of_nat (1 + streakLoop tz r (midnight tz (d - 1)) 0)) with (j + 1)%Z
        by (unfold j; lia).
      split.
      * intros i Hi. destruct (Z.eq_dec i 0) as [->|Hi0].
        -- exists e, te. split; [now left | split; [exact Ee | lia]].
        -- destruct (Hdays (i - 1)%Z) as (e' & t' & He' & Et' & Hday); [lia|].
           exists e', t'. split; [now right | split; [exact Et' | lia]].
      * intros e' t' [<- | He'] Et'.
        -- assert (t' = te) by congruence. subst. lia.
        -- specialize (Hgap e' t' He' Et'). lia.
    + destruct (Z.ltb_spec (dayOf tz te) d) as [Hlt|Hge].
      * split; [simpl; lia|].
        simpl. intros e' t' [<- | He'] Et'.
        -- assert (t' = te) by congruence. subst. lia.
        -- rewrite Forall_forall in Hall.
           destruct (Hall e' He') as (ta & tb & Ea & Eb & Hle).
           assert (ta = te) by congruence. assert (tb = t') by congruence. subst.
           apply (dayOf_mono tz) in Hle. lia.
      * destruct (IH d Hvr Hr) as [Hdays Hgap].
        set (j := Z.of_nat (streakLoop tz r (midnight tz d) 0)) in *.
        split.
        -- intros i Hi. destruct (Hdays i Hi) as (e' & t' & He' & Et' & Hday).
           exists e', t'. split; [now right | now split].
        -- intros e' t' [<- | He'] Et'.
           ++ assert (t' = te) by congruence. subst. lia.
           ++ now apply (Hgap e' t').
Qed.

Lemma entryOn_sort tz l d : entryOn tz (sort byNewest l) d <-> entryOn tz l d.
Proof.
  unfold entryOn. split; intros (e & t & He & Et & Hd); exists e, t;
    (split; [now apply (sort_In byNewest) | now split]).
Qed.

Lemma validTimes_sort l : validTimes l -> validTimes (sort byNewest l).
Proof.
  unfold validTimes. rewrite !Forall_forall. intros H e He.
  apply H. now apply (sort_In byNewest).
Qed.

Lemma computeStreak_spec tz now entries :
  validTimes entries ->
  (forall i, (0 <= i < Z.of_nat (computeStreak tz now entries))%Z ->
             entryOn tz entries (dayOf tz now - i)) /\
  ~ entryOn tz entries (dayOf tz now - Z.of_nat (computeStreak tz now entries)).
Proof.
  intros Hv. unfold computeStreak. rewrite setHoursZero_midnight.
  destruct (streakLoop_spec tz (sort byNewest entries) (dayOf tz now)
              (validTimes_sort entries Hv) (sort_byNewest_sorted entries Hv))
    as [Hdays Hgap].
  split.
  - intros i Hi. apply entryOn_sort. now apply Hdays.
  - intros Hon. apply entryOn_sort in Hon. destruct Hon as (e & t & He & Et & Hd).
    now apply (Hgap e t He Et).
Qed.




(** ** Counting moods *)

Lemma get_set {V : Type} (o : object V) key v k :
  get (set o key v) k = if key =? k then Some v else get o k.
Proof.
  induction o as [|[k' w] r IH]; simpl.
  - reflexivity.
  - destruct (String.eqb_spec k' key) as [->|N]; simpl.
    + destruct (String.eqb_spec key k); reflexivity.
    + rewrite IH. destruct (String.eqb_spec k' k) as [->|N']; [|reflexivity].
      destruct (String.eqb_spec key k); [congruence | reflexivity].
Qed.

Lemma get_In {V : Type} (o : object V) k :
  In k (map fst o) <-> get o k <> None.
Proof.
  induction o as [|[k' w] r IH]; simpl.
  - split; [intros [] | congruence].
  - destruct (String.eqb_spec k' k) as [->|N].
    + split; [discriminate | auto].
    + rewrite <- IH. split; [intros [E|H]; [contradiction | exact H] | auto].
Qed.

Lemma insertIndex_In k l p : In p (insertIndex k l) <-> p = k \/ In p l.
Proof.
  induction l as [|h r IH]; simpl.
  - split; intros [H|H]; auto.
  - destruct (fst k <=? fst h)%N; simpl; [split; intros [H|H]; auto|].
    rewrite IH. tauto.
Qed.

Lemma indexKeys_In ks n k :
  In (n, k) (indexKeys ks) <-> In k ks /\ arrayIndex k = Some n.
Proof.
  induction ks as [|k' r IH]; simpl.
  - tauto.
  - destruct (arrayIndex k') as [n'|] eqn:E.
    + rewrite insertIndex_In, IH. split.
      * intros [H | [H1 H2]]; [inversion H; subst; auto | auto].
      * intros [[<- | H1] H2]; [left; congruence | auto].
    + rewrite IH. split; [tauto|].
      intros [[<- | H1] H2]; [congruence | auto].
Qed.

(** [Object.keys] lists the own keys, whatever the order. *)
Lemma keys_In {V : Type} (o : object V) k : In k (keys o) <-> In k (map fst o).
Proof.
  unfold keys. rewrite in_app_iff, filter_In, in_map_iff. unfold isName. split.
  - intros [[[n k'] [E H]] | [H _]]; [|exact H].
    simpl in E. subst. now apply indexKeys_In in H.
  - intros H. destruct (arrayIndex k) as [n|] eqn:E; [left | now right].
    exists (n, k). split; [reflexivity | now apply indexKeys_In].
Qed.

Lemma occurrences_app l e key :
  occurrences (l ++ [e]) key
  = (occurrences l key + if (propertyKey (mood e) =? key)%string then 1 else 0)%nat.
Proof.
  unfold occurrences. rewrite filter_app, length_app. simpl.
  now destruct (propertyKey (mood e) =? key).
Qed.

Lemma increment_counted o seen e :
  (forall k, get o k = counted seen k) ->
  forall k, get (increment o (propertyKey (mood e))) k = counted (seen ++ [e]) k.
Proof.
  intros H k. unfold increment. rewrite get_set. unfold counted.
  rewrite occurrences_app.
  destruct (String.eqb_spec (propertyKey (mood e)) k) as [->|N].
  - rewrite H. unfold counted.
    destruct (occurrences seen k) as [|n]; simpl; [reflexivity|].
    now rewrite Nat.add_1_r.
  - rewrite H. unfold counted. now rewrite Nat.add_0_r.
Qed.

Lemma countMoods_from entries : forall o seen,
  (forall k, get o k = counted seen k) ->
  forall k,
    get (fold_left (fun o e => increment o (propertyKey (mood e))) entries o) k
    = counted (seen ++ entries) k.
Proof.
  induction entries as [|e r IH]; intros o seen H k; simpl.
  - now rewrite app_nil_r.
  - rewrite (IH _ (seen ++ [e])); [now rewrite <- app_assoc|].
    now apply increment_counted.
Qed.

Lemma countMoods_get entries k : get (countMoods entries) k = counted entries k.
Proof. apply (countMoods_from entries [] []). reflexivity. Qed.

Lemma counted_key entries k :
  In k (keys (countMoods entries)) <->
  exists e, In e entries /\ propertyKey (mood e) = k.
Proof.
  rewrite keys_In, get_In, countMoods_get. unfold counted, occurrences.
  split.
  - intros H.
    destruct (filter (fun e => propertyKey (mood e) =? k) entries) as [|e r] eqn:E.
    + now contradiction H.
    + assert (Hin : In e (filter (fun e => propertyKey (mood e) =? k) entries))
        by (rewrite E; now left).
      apply filter_In in Hin. destruct Hin as [Hin Hk].
      exists e. split; [exact Hin | now apply String.eqb_eq].
  - intros [e [Hin Hk]].
    assert (Hf : In e (filter (fun e => propertyKey (mood e) =? k) entries)).
    { apply filter_In. split; [exact Hin | now apply String.eqb_eq]. }
    destruct (filter (fun e => propertyKey (mood e) =? k) entries); [destruct Hf|].
    discriminate.
Qed.

Lemma counted_Some entries k :
  In k (keys (countMoods entries)) ->
  get (countMoods entries) k = Some (occurrences entries k).
Proof.
  intros H. apply keys_In, get_In in H. rewrite countMoods_get in *.
  unfold counted in *. now destruct (occurrences entries k).
Qed.

Lemma in_middle {A : Type} (l pre post : list A) (x : A) :
  l = pre ++ x :: post -> In x l.
Proof. intros ->. apply in_elt. Qed.

Section Reduce.

Variable f : string -> option nat.
Variable g : string -> nat.

(** The [reduce] of [updateStats], from any start [a], over keys that all
    have a count: either [a] beats every key, or the result is the last of
    the keys with the greatest count and [a] does not beat it. *)
Lemma reduce_last ks : forall a,
  (forall k, In k ks -> f k = Some (g k)) ->
  let r := fold_left (fun a b => if greater (f a) (f b) then a else b) ks a in
  (r = a /\ forall k, In k ks -> greater (f a) (f k) = true) \/
  (greater (f a) (f r) = false /\ lastMaximum g ks r).
Proof.
  induction ks as [|b ks' IH]; intros a Hks; simpl.
  - left. split; [reflexivity | intros k []].
  - assert (Hks' : forall k, In k ks' -> f k = Some (g k)) by (intros; apply Hks; now right).
    assert (Hb : f b = Some (g b)) by (apply Hks; now left).
    destruct (greater (f a) (f b)) eqn:G.
    + destruct (IH a Hks') as [[Hr Hall] | (Hg & pre & post & E & Hpre & Hpost)].
      * left. split; [exact Hr|]. intros k [<- | H]; auto.
      * right. split; [exact Hg|].
        exists (b :: pre), post. split; [simpl; now rewrite <- E|]. split; [|exact Hpost].
        intros k [<- | H]; [|now apply Hpre].
        rewrite (Hks' _ (in_middle _ _ _ _ E)) in Hg.
        rewrite Hb in G. destruct (f a) as [x|]; simpl in *; [|discriminate].
        apply Nat.ltb_lt in G. apply Nat.ltb_ge in Hg. lia.
    + destruct (IH b Hks') as [[Hr Hall] | (Hg & pre & post & E & Hpre & Hpost)].
      * right. rewrite Hr. split; [exact G|].
        exists [], ks'. split; [reflexivity|]. split; [intros k []|].
        intros k H. specialize (Hall k H). rewrite Hb, (Hks' k H) in Hall.
        now apply Nat.ltb_lt in Hall.
      * assert (Hr : f (fold_left (fun a b => if greater (f a) (f b) then a else b) ks' b)
                     = Some (g (fold_left (fun a b => if greater (f a) (f b) then a else b) ks' b))).
        { apply Hks'. exact (in_middle _ _ _ _ E). }
        rewrite Hr, Hb in Hg. simpl in Hg. apply Nat.ltb_ge in Hg.
        right. split.
        -- rewrite Hr. rewrite Hb in G.
           destruct (f a) as [x|]; simpl in *; [|reflexivity].
           apply Nat.ltb_ge in G. apply Nat.ltb_ge. lia.
        -- exists (b :: pre), post. split; [simpl; now rewrite <- E|].
           split; [|exact Hpost].
           intros k [<- | H]; [exact Hg | now apply Hpre].
Qed.

End Reduce.

Lemma mostCommon_lastMaximum entries :
  entries <> [] ->
  lastMaximum (occurrences entries) (keys (countMoods entries)) (mostCommon entries).
Proof.
  intros Hne. unfold mostCommon.
  destruct (reduce_last (get (countMoods entries)) (occurrences entries)
              (keys (countMoods entries)) "-" (counted_Some entries))
    as [[_ Hall] | [_ H]]; [exfalso | exact H].
  destruct entries as [|e r]; [congruence|].
  assert (Hk : In (propertyKey (mood e)) (keys (countMoods (e :: r)))).
  { apply counted_key. exists e. split; [now left | reflexivity]. }
  pose proof (Hall _ Hk) as H.
  destruct (get (countMoods (e :: r)) "-") as [x|] eqn:E; [|discriminate].
  assert (Hd : In "-" (keys (countMoods (e :: r)))).
  { apply keys_In, get_In. congruence. }
  specialize (Hall _ Hd). rewrite E in Hall. simpl in Hall.
  rewrite Nat.ltb_irrefl in Hall. discriminate.
Qed.

Lemma set_keys {V : Type} (o : object V) key v :
  map fst (set o key v)
  = if arrayIncludes (map fst o) key then map fst o else map fst o ++ [key].
Proof.
  unfold arrayIncludes.
  induction o as [|[k w] r IH]; simpl; [reflexivity|].
  rewrite (String.eqb_sym key k).
  destruct (String.eqb_spec k key) as [->|N]; simpl; [reflexivity|].
  rewrite IH. now destruct (existsb (String.eqb key) (map fst r)).
Qed.

Lemma countMoods_keys_from entries : forall o,
  map fst (fold_left (fun o e => increment o (propertyKey (mood e))) entries o)
  = fold_left (fun seen k => if arrayIncludes seen k then seen else seen ++ [k])
              (map (fun e => propertyKey (mood e)) entries) (map fst o).
Proof.
  induction entries as [|e r IH]; intros o; simpl; [reflexivity|].
  rewrite IH. unfold increment. now rewrite set_keys.
Qed.

Lemma indexKeys_names ks :
  Forall (fun k => isName k = true) ks -> indexKeys ks = [] /\ filter isName ks = ks.
Proof.
  induction 1 as [|k r Hk _ [IH1 IH2]]; [now split|].
  simpl. rewrite Hk, IH2. unfold isName in Hk.
  destruct (arrayIndex k); [discriminate | now split].
Qed.

Lemma keys_names {V : Type} (o : object V) :
  Forall (fun k => isName k = true) (map fst o) -> keys o = map fst o.
Proof.
  intros H. unfold keys. destruct (indexKeys_names _ H) as [-> ->]. reflexivity.
Qed.

(** C1, as the code has it.  Let no mood be the name of a member of
    [Object.prototype].  For the empty list the dashboard shows the sentinel
    "-" and no mood.  For a non-empty list it shows the emoji of
    [mostCommon], which is the mood key of some entry, occurs at least as
    often as the mood of every entry, and among the keys with that greatest
    count is the last one in the order of [Object.keys].  When no mood is an
    array index, that order is the order in which the moods first occur in
    the store: the tie is decided by the order of the store, not by the list
    of the moods. *)
Theorem mostCommon_is_last_maximum (tz now : Z) (entries : list entry) :
  plainMoods entries ->
  (entries = [] -> mostCommonMood (updateStats tz now entries) = "-") /\
  (entries <> [] ->
   mostCommonMood (updateStats tz now entries) = getMoodEmoji (mostCommon entries) /\
   (exists e, In e entries /\ propertyKey (mood e) = mostCommon entries) /\
   (forall e, In e entries ->
      (occurrences entries (propertyKey (mood e))
       <= occurrences entries (mostCommon entries))%nat) /\
   lastMaximum (occurrences entries) (keys (countMoods entries)) (mostCommon entries)) /\
  (Forall (fun e => isName (propertyKey (mood e)) = true) entries ->
   keys (countMoods entries)
   = firstOccurrences (map (fun e => propertyKey (mood e)) entries)).
Proof.
  intros _. split; [|split].
  - intros ->. reflexivity.
  - intros Hne. pose proof (mostCommon_lastMaximum entries Hne) as Hlast.
    split; [|split; [|split; [|exact Hlast]]].
    + unfold updateStats. destruct entries; [congruence | reflexivity].
    + destruct Hlast as (pre & post & E & _ & _).
      apply counted_key. exact (in_middle _ _ _ _ E).
    + intros e He. destruct Hlast as (pre & post & E & Hpre & Hpost).
      assert (Hk : In (propertyKey (mood e)) (keys (countMoods entries))).
      { apply counted_key. now exists e. }
      rewrite E in Hk. apply in_app_or in Hk.
      destruct Hk as [Hk | [<- | Hk]]; [now apply Hpre | lia | ].
      apply Nat.lt_le_incl. now apply Hpost.
  - intros Hnames.
    assert (E : map fst (countMoods entries)
                = firstOccurrences (map (fun e => propertyKey (mood e)) entries)).
    { unfold countMoods, firstOccurrences. now rewrite countMoods_keys_from. }
    rewrite <- E. apply keys_names.
    rewrite Forall_forall in *. intros k Hk.
    apply keys_In, counted_key in Hk. destruct Hk as [e [He <-]]. now apply Hnames.
Qed.

Lemma mostCommon_is_last_maximum_witness :
  let good := mkEntry 2 (Some "Good") (Some "") (Some []) (Some 2000%Z) in
  let amazing := mkEntry 1 (Some "Amazing") (Some "") (Some []) (Some 1000%Z) in
  plainMoods [good; amazing] /\
  mostCommon [good; amazing] = "Amazing" /\
  lastMaximum (occurrences [good; amazing]) (keys (countMoods [good; amazing])) "Amazing".
Proof.
  intros good amazing.
  assert (Hplain : plainMoods [good; amazing]) by (repeat constructor).
  assert (Hne : [good; amazing] <> []) by discriminate.
  split; [exact Hplain|]. split; [reflexivity|].
  exact (proj2 (proj2 (proj2
    (proj1 (proj2 (mostCommon_is_last_maximum 0 0 [good; amazing] Hplain)) Hne)))).
Defined.

(** C1 as the specification words it (the first key with the greatest count
    wins a tie) fails.  With an "Amazing" entry in front of a "Good" entry
    the two moods tie, the keys are enumerated as "Amazing", "Good", and the
    result is "Good": not the first of the tied keys, neither in the order
    of [Object.keys] nor in the order in which the specification lists the
    moods.  With the two entries in the other order the result is
    "Amazing": the order of the store decides. *)
Lemma mostCommon_not_first_maximum :
  let amazing := mkEntry 2 (Some "Amazing") (Some "") (Some []) (Some 2000%Z) in
  let good := mkEntry 1 (Some "Good") (Some "") (Some []) (Some 1000%Z) in
  keys (countMoods [amazing; good]) = ["Amazing"; "Good"] /\
  mostCommon [amazing; good] = "Good" /\
  ~ firstMaximum (occurrences [amazing; good]) (keys (countMoods [amazing; good]))
      (mostCommon [amazing; good]) /\
  ~ firstMaximum (occurrences [amazing; good]) moodEnumeration
      (mostCommon [amazing; good]) /\
  mostCommon [good; amazing] = "Amazing".
Proof.
  intros amazing good.
  split; [reflexivity|]. split; [reflexivity|]. split; [|split; [|reflexivity]].
  - intros (pre & post & E & Hpre & _).
    change (keys (countMoods [amazing; good])) with ["Amazing"; "Good"] in E.
    change (mostCommon [amazing; good]) with "Good" in *.
    destruct pre as [|k pre]; [discriminate|].
    injection E as <- E.
    specialize (Hpre "Amazing" (or_introl eq_refl)).
    vm_compute in Hpre. lia.
  - intros (pre & post & E & Hpre & _).
    change (mostCommon [amazing; good]) with "Good" in *.
    unfold moodEnumeration in E.
    destruct pre as [|k pre]; [discriminate|].
    injection E as <- E.
    specialize (Hpre "Amazing" (or_introl eq_refl)).
    vm_compute in Hpre. lia.
Qed.

(** ** Mood distribution *)

Lemma filter_mood_length entries m :
  List.length (filter (fun e => strictEq (mood e) m) entries) = withMood entries m.
Proof.
  unfold withMood. induction entries as [|e r IH]; simpl; [reflexivity|].
  destruct (mood_eq_dec (mood e) m) as [E|N].
  - subst m. replace (strictEq (mood e) (mood e)) with true; [simpl; now rewrite IH|].
    destruct (mood e); simpl; [now rewrite String.eqb_refl | reflexivity].
  - replace (strictEq (mood e) m) with false; [exact IH|].
    destruct (mood e) as [x|], m as [y|]; simpl; try reflexivity; try congruence.
    symmetry. apply String.eqb_neq. congruence.
Qed.

Lemma known_moods_cover entries :
  Forall knownMood entries ->
  (withMood entries (Some "Amazing") + withMood entries (Some "Good")
   + withMood entries (Some "Neutral") + withMood entries (Some "Stressed")
   + withMood entries (Some "Terrible") = List.length entries)%nat.
Proof.
  unfold withMood.
  induction 1 as [|e r [m [Hm He]] _ IH]; [reflexivity|].
  cbn [map count_occ List.length]. rewrite He.
  simpl in Hm. destruct Hm as [<- | [<- | [<- | [<- | [<- | []]]]]];
    vm_compute moodNames;
    repeat match goal with
           | |- context [mood_eq_dec ?a ?b] =>
               destruct (mood_eq_dec a b); try congruence
           end; lia.
Qed.

Lemma ofNat_plus a b : (ofNat (a + b) == ofNat a + ofNat b)%Q.
Proof. unfold ofNat. now rewrite Nat2Z.inj_add, inject_Z_plus. Qed.

Lemma ofNat_nonzero n : n <> 0%nat -> ~ (ofNat n == 0)%Q.
Proof.
  intros Hn H. unfold ofNat, Qeq in H. simpl in H. lia.
Qed.

Lemma quotient_number a n :
  n <> 0%nat -> quotient a (ofNat n) = Some (a / ofNat n)%Q.
Proof.
  intros Hn. unfold quotient.
  destruct (Qeq_bool (ofNat n) 0) eqn:E; [|reflexivity].
  apply Qeq_bool_iff in E. now apply ofNat_nonzero in E.
Qed.

Lemma divisor_nonzero entries : divisor entries <> 0%nat.
Proof. destruct entries; simpl; discriminate. Qed.

Lemma shares_sum a b c d e n :
  (a + b + c + d + e = n)%nat -> n <> 0%nat ->
  (ofNat a / ofNat n * 100
   + (ofNat b / ofNat n * 100
      + (ofNat c / ofNat n * 100
         + (ofNat d / ofNat n * 100 + (ofNat e / ofNat n * 100 + 0)))) == 100)%Q.
Proof.
  intros Hsum Hn. apply ofNat_nonzero in Hn.
  assert (E : (ofNat n == ofNat a + ofNat b + ofNat c + ofNat d + ofNat e)%Q).
  { rewrite <- Hsum. now rewrite !ofNat_plus. }
  assert (Hn' : ~ (ofNat a + ofNat b + ofNat c + ofNat d + ofNat e == 0)%Q)
    by now rewrite <- E.
  rewrite E. field. exact Hn'.
Qed.

(** C3, as the code has it.  The chart has one bar for each of the five
    moods, in the order of [moods]; its count is the number of entries with
    that mood and its percentage is the number count / divisor * 100, where
    the divisor is the number of entries, or 1 when there is none: the
    divisor is never zero and every percentage is a number.  For an empty
    list every percentage is 0.  For a non-empty list in which every entry
    has one of the five moods, the five percentages add up to 100. *)
Theorem distribution_percentages (entries : list entry) :
  map barMood (updateMoodDistribution entries) = moods /\
  divisor entries <> 0%nat /\
  Forall (fun b =>
            exists name q,
              moodNames (barMood b) = Some name /\
              count b = withMood entries (Some name) /\
              percentage b = Some q /\
              (q == ofNat (count b) / ofNat (divisor entries) * 100)%Q)
         (updateMoodDistribution entries) /\
  (entries = [] ->
   Forall (fun b => exists q, percentage b = Some q /\ (q == 0)%Q)
          (updateMoodDistribution entries)) /\
  (entries <> [] -> Forall knownMood entries ->
   exists q,
     totalPercentage (updateMoodDistribution entries) = Some q /\ (q == 100)%Q).
Proof.
  assert (Hdiv : (if (List.length entries =? 0)%nat then 1%nat else List.length entries)
                 = divisor entries) by now destruct entries.
  pose proof (divisor_nonzero entries) as Hnz.
  split; [reflexivity|]. split; [exact Hnz|]. split; [|split].
  - unfold updateMoodDistribution. rewrite Hdiv. cbn [map moods].
    repeat constructor; do 2 eexists; (split; [reflexivity|]);
      cbn [count percentage]; (split; [apply filter_mood_length|]);
      rewrite (quotient_number _ _ Hnz); (split; reflexivity).
  - intros ->. repeat constructor; eexists; (split; reflexivity).
  - intros Hne Hknown.
    unfold updateMoodDistribution, totalPercentage. rewrite Hdiv.
    cbn [map moods fold_right percentage]. rewrite !filter_mood_length.
    rewrite !(quotient_number _ _ Hnz). cbn [scale option_map addNumbers].
    eexists. split; [reflexivity|].
    apply shares_sum; [|exact Hnz].
    replace (divisor entries) with (List.length entries) by now destruct entries.
    now apply known_moods_cover.
Qed.

Lemma distribution_percentages_witness :
  let a := mkEntry 1 (Some "Good") (Some "") (Some []) (Some 1000%Z) in
  let b := mkEntry 2 (Some "Terrible") (Some "") (Some []) (Some 2000%Z) in
  let c := mkEntry 3 (Some "Good") (Some "") (Some []) (Some 3000%Z) in
  exists q,
    totalPercentage (updateMoodDistribution [a; b; c]) = Some q /\ (q == 100)%Q.
Proof.
  intros a b c.
  apply (distribution_percentages [a; b; c]); [discriminate|].
  repeat constructor.
  - exists "good". split; [unfold moods; simpl; tauto | reflexivity].
  - exists "terrible". split; [unfold moods; simpl; tauto | reflexivity].
  - exists "good". split; [unfold moods; simpl; tauto | reflexivity].
Defined.

(** C3 as the specification words it (100 for every non-empty list) fails:
    an entry whose mood is none of the five (an import does not check the
    mood) leaves all five percentages at 0, so that they add up to 0. *)
Lemma distribution_not_always_100 :
  let e := mkEntry 1 (Some "Happy") (Some "") (Some []) (Some 1000%Z) in
  [e] <> [] /\
  exists q,
    totalPercentage (updateMoodDistribution [e]) = Some q /\
    (q == 0)%Q /\ ~ (q == 100)%Q.
Proof.
  intros e. split; [discriminate|].
  eexists. split; [reflexivity|]. split; [reflexivity|].
  intros H. vm_compute in H. discriminate.
Qed.

(** ** History filter *)

Lemma blank_inactive value : trim value = "" -> truthy (trim value) = false.
Proof. now intros ->. Qed.

(** C6. With the mood filter "All" and a search field that is empty after
    trimming (or absent), the filter stage returns the entries as they
    are. *)
Theorem filter_all_is_identity (entries : list entry) (value : string) :
  trim value = "" ->
  filterEntries "All" (Some value) entries = Normal entries /\
  filterEntries "All" None entries = Normal entries.
Proof.
  intros Hblank. unfold filterEntries, filterBySearch, filterByMood. simpl.
  now rewrite (blank_inactive _ Hblank).
Qed.

Lemma filter_all_is_identity_witness :
  let a := mkEntry 1 (Some "Good") None None (Some 1000%Z) in
  let b := mkEntry 2 None (Some "rain") (Some ["wet"]) (Some 500%Z) in
  filterEntries "All" (Some "  ") [a; b] = Normal [a; b].
Proof.
  intros a b.
  exact (proj1 (filter_all_is_identity [a; b] "  " eq_refl)).
Defined.

(** C7. With a mood filter [M] other than "All" and no search term, the
    filter stage returns entries whose mood is [M], each of them an entry of
    the input, and as many as the input has entries with mood [M]. *)
Theorem filter_by_mood (entries : list entry) (M value : string) :
  M <> "All" ->
  trim value = "" ->
  exists result,
    filterEntries M (Some value) entries = Normal result /\
    Forall (fun e => mood e = Some M /\ In e entries) result /\
    List.length result = withMood entries (Some M).
Proof.
  intros HM Hblank.
  exists (filter (fun e => strictEq (mood e) (Some M)) entries).
  split; [|split].
  - unfold filterEntries, filterBySearch, filterByMood.
    rewrite (blank_inactive _ Hblank).
    now destruct (String.eqb_spec M "All").
  - apply Forall_forall. intros e He. apply filter_In in He.
    destruct He as [Hin Hm]. split; [|exact Hin].
    destruct (mood e) as [x|]; simpl in Hm; [|discriminate].
    apply String.eqb_eq in Hm. now subst.
  - apply filter_mood_length.
Qed.

Lemma filter_by_mood_witness :
  let a := mkEntry 1 (Some "Good") (Some "walk") (Some []) (Some 1000%Z) in
  let b := mkEntry 2 (Some "Neutral") None None (Some 2000%Z) in
  let c := mkEntry 3 (Some "Good") (Some "") None (Some 3000%Z) in
  exists result,
    filterEntries "Good" (Some "") [a; b; c] = Normal result /\
    Forall (fun e => mood e = Some "Good" /\ In e [a; b; c]) result /\
    List.length result = 2%nat.
Proof.
  intros a b c.
  apply (filter_by_mood [a; b; c] "Good" ""); [discriminate | reflexivity].
Defined.

(** *** Search *)

Lemma matchesSearch_total term e :
  note e <> None -> mood e <> None -> exists b, matchesSearch term e = Normal b.
Proof.
  intros Hn Hm. unfold matchesSearch.
  destruct (note e) as [n|]; [simpl | congruence].
  destruct (includes (toLowerCase n) term); [now eexists|].
  destruct (mood e) as [m|]; [simpl | congruence].
  destruct (includes (toLowerCase m) term); [now eexists|].
  destruct (tags e); now eexists.
Qed.

Lemma matchesSearch_throws term e x :
  matchesSearch term e = Throw x -> x = TypeError.
Proof.
  unfold matchesSearch.
  destruct (note e) as [n|]; simpl; [|congruence].
  destruct (includes (toLowerCase n) term); [discriminate|].
  destruct (mood e) as [m|]; simpl; [|congruence].
  destruct (includes (toLowerCase m) term); [discriminate|].
  destruct (tags e); discriminate.
Qed.

Lemma filterWith_total term l :
  Forall (fun e => note e <> None /\ mood e <> None) l ->
  exists result, filterWith (matchesSearch term) l = Normal result.
Proof.
  induction 1 as [|e r [Hn Hm] _ [result IH]]; simpl; [now eexists|].
  destruct (matchesSearch_total term e Hn Hm) as [b ->]. simpl.
  rewrite IH. simpl. now eexists.
Qed.

Lemma filterWith_throws term l :
  (exists e, In e l /\ note e = None) ->
  filterWith (matchesSearch term) l = Throw TypeError.
Proof.
  induction l as [|x r IH]; intros [e [Hin Hnote]]; [destruct Hin|].
  simpl. destruct (matchesSearch term x) as [b|y] eqn:E; simpl.
  - rewrite IH; [reflexivity|].
    destruct Hin as [<- | Hin]; [|now exists e].
    unfold matchesSearch in E. rewrite Hnote in E. discriminate.
  - now rewrite (matchesSearch_throws _ _ _ E).
Qed.

Lemma filterByMood_incl currentFilter entries e :
  In e (filterByMood currentFilter entries) -> In e entries.
Proof.
  unfold filterByMood. destruct (currentFilter =? "All"); [auto|].
  intros H. now apply filter_In in H.
Qed.

(** C10, as the code has it.  The search stage case-folds the note and, when
    the note does not match, the mood, without a guard; only the tags are
    guarded.  So when the note and the mood of every entry are strings, the
    filter completes normally for every mood filter and every search term.
    When an entry that reaches the search stage has no note, a non-empty
    search term ends the filter with a [TypeError]. *)
Theorem search_total_on_string_fields
        (entries : list entry) (currentFilter value : string) :
  (Forall (fun e => note e <> None /\ mood e <> None) entries ->
   exists result, filterEntries currentFilter (Some value) entries = Normal result) /\
  (trim value <> "" ->
   (exists e, In e (filterByMood currentFilter entries) /\ note e = None) ->
   filterEntries currentFilter (Some value) entries = Throw TypeError).
Proof.
  unfold filterEntries, filterBySearch. split.
  - intros Hall. destruct (truthy (trim value)); [|now eexists].
    apply filterWith_total.
    rewrite Forall_forall in *. intros e He.
    apply Hall. now apply filterByMood_incl in He.
  - intros Hterm Hmissing. apply truthy_true in Hterm. rewrite Hterm.
    now apply filterWith_throws.
Qed.

Lemma search_total_on_string_fields_witness :
  let a := mkEntry 1 (Some "Good") (Some "Long Walk") None (Some 1000%Z) in
  let b := mkEntry 2 (Some "Neutral") None (Some ["rain"]) (Some 2000%Z) in
  (exists result, filterEntries "All" (Some " walk ") [a] = Normal result) /\
  filterEntries "All" (Some " walk ") [a; b] = Throw TypeError.
Proof.
  intros a b. split.
  - apply (search_total_on_string_fields [a] "All" " walk ").
    repeat constructor; discriminate.
  - apply (search_total_on_string_fields [a; b] "All" " walk "); [discriminate|].
    exists b. split; [simpl; auto | reflexivity].
Defined.

(** C10 as the specification words it (string notes suffice) fails: an
    entry with a note but without a mood (an import does not check the
    fields) makes the search throw as soon as the note does not match the
    term. *)
Lemma search_throws_on_missing_mood :
  let e := mkEntry 1 None (Some "x") (Some []) (Some 1000%Z) in
  Forall (fun e => note e <> None) [e] /\
  filterEntries "All" (Some "y") [e] = Throw TypeError.
Proof.
  intros e. split; [repeat constructor; discriminate | reflexivity].
Qed.

(** ** Import *)

Lemma reviveTimestamps_entries imported :
  reviveTimestamps (map Some imported) = Normal imported.
Proof.
  induction imported as [|e r IH]; simpl; [reflexivity|].
  rewrite IH. simpl. now destruct e.
Qed.

(** C4. When the file is not valid JSON, or is JSON but not an array, the
    import shows the "Import Error" notice and leaves the whole state, the
    entry store included, as it was. *)
Theorem import_failure_leaves_store
        (searchInput : option string) (st : app) (p : payload) :
  (p = Malformed \/ exists v, p = NotArray v) ->
  exists message,
    importData searchInput (Some p) st = (st, Some (Modal "Import Error" message)) /\
    moodEntries (fst (importData searchInput (Some p) st)) = moodEntries st.
Proof.
  intros [-> | [v ->]]; eexists; split; reflexivity.
Qed.

Lemma import_failure_leaves_store_witness :
  let e := mkEntry 1 (Some "Good") (Some "x") (Some []) (Some 1000%Z) in
  let st := mkApp [e] "All" "newest" ["home"] in
  (exists message,
      importData (Some "") (Some Malformed) st
      = (st, Some (Modal "Import Error" message)) /\
      moodEntries (fst (importData (Some "") (Some Malformed) st)) = moodEntries st) /\
  (exists message,
      importData (Some "") (Some (NotArray (JString "[]"))) st
      = (st, Some (Modal "Import Error" message)) /\
      moodEntries (fst (importData (Some "") (Some (NotArray (JString "[]"))) st))
      = moodEntries st).
Proof.
  intros e st. split.
  - apply (import_failure_leaves_store (Some "") st Malformed). now left.
  - apply (import_failure_leaves_store (Some "") st (NotArray (JString "[]"))).
    right. now eexists.
Defined.

(** C5. Importing an array of entry objects puts the whole batch, in its own
    order, in front of the entries that the store held.  Importing the
    one-entry array of the scenario into the empty store gives a store of
    length 1 that starts with that entry. *)
Theorem import_prepends_batch
        (searchInput : option string) (st : app) (imported : list entry) :
  moodEntries (fst (importData searchInput (Some (arrayOfEntries imported)) st))
  = imported ++ moodEntries st /\
  moodEntries (fst (importData searchInput (Some (arrayOfEntries [sampleEntry])) initial))
  = [sampleEntry] /\
  List.length
    (moodEntries
       (fst (importData searchInput (Some (arrayOfEntries [sampleEntry])) initial)))
  = 1%nat.
Proof.
  assert (H : forall s l,
             moodEntries (fst (importData searchInput (Some (arrayOfEntries l)) s))
             = l ++ moodEntries s).
  { intros s l. unfold importData, tryImport, arrayOfEntries. simpl jsonParse. cbv iota.
    rewrite reviveTimestamps_entries.
    now destruct (renderAll searchInput (withEntries s (l ++ moodEntries s))). }
  split; [apply H|]. split; rewrite H; reflexivity.
Qed.

(** * Further properties of the script *)

(** ** Deleting and logging *)

Lemma filter_keeps_all {A : Type} (p : A -> bool) (l : list A) :
  (forall x, In x l -> p x = true) -> filter p l = l.
Proof.
  induction l as [|x r IH]; intros H; simpl; [reflexivity|].
  rewrite (H x (or_introl eq_refl)), IH; [reflexivity|].
  intros y Hy. apply H. now right.
Qed.

Lemma withEntries_same st : withEntries st (moodEntries st) = st.
Proof. now destruct st. Qed.

(** X1. A confirmed [deleteEntry] removes every entry that has the given id
    and no other entry; when no entry has the id the state is left as it was
    (no error), and so it is when the user declines. *)
Theorem deleteEntry_removes_id (entryId : Z) (st : app) :
  (forall e, In e (moodEntries (deleteEntry true entryId st))
             <-> In e (moodEntries st) /\ id e <> entryId) /\
  ((forall e, In e (moodEntries st) -> id e <> entryId) ->
   deleteEntry true entryId st = st) /\
  (List.length (moodEntries (deleteEntry true entryId st))
   <= List.length (moodEntries st))%nat /\
  deleteEntry false entryId st = st.
Proof.
  split; [|split; [|split]].
  - intros e. simpl. rewrite filter_In, negb_true_iff, Z.eqb_neq. tauto.
  - intros H. unfold deleteEntry. rewrite filter_keeps_all; [apply withEntries_same|].
    intros e He. apply negb_true_iff, Z.eqb_neq. now apply H.
  - simpl. apply filter_length_le.
  - reflexivity.
Qed.

Lemma deleteEntry_removes_id_witness :
  let a := mkEntry 7 (Some "Good") (Some "") (Some []) (Some 7%Z) in
  let b := mkEntry 9 (Some "Neutral") (Some "") (Some []) (Some 9%Z) in
  let st := mkApp [a; b; a] "All" "newest" [] in
  deleteEntry true 8 st = st /\
  moodEntries (deleteEntry true 7 st) = [b].
Proof.
  intros a b st. split; [|reflexivity].
  destruct (deleteEntry_removes_id 8 st) as (_ & H & _). apply H.
  intros e [<- | [<- | [<- | []]]]; discriminate.
Defined.

Lemma substring_length n s : (String.length (String.substring 0 n s) <= n)%nat.
Proof.
  revert s. induction n as [|n IH]; intros [|c s]; simpl; try lia.
  specialize (IH s). lia.
Qed.

Lemma substring_prefix n s : String.prefix (String.substring 0 n s) s = true.
Proof.
  revert s. induction n as [|n IH]; intros [|c s]; simpl; try reflexivity.
  destruct (ascii_dec c c); [apply IH | congruence].
Qed.

Lemma substring_cleanStart n s : cleanStart s -> cleanStart (String.substring 0 n s).
Proof. destruct n, s; simpl; auto. Qed.

(** X2. With a mood selected, [logMood] puts one new entry in front of the
    store and leaves the older entries as they were.  The entry carries the
    clock as id and timestamp, the selected mood, a copy of the tag buffer,
    and as note the first 500 characters at most of the trimmed text: a
    prefix of it, with no white space in front.  The tag buffer is emptied.
    Without a selected mood the state is left as it was. *)
Theorem logMood_prepends_entry (now : Z) (moodValue noteValue : string) (st : app) :
  (exists e n,
      moodEntries (fst (logMood now (Some moodValue) (Some noteValue) st))
      = e :: moodEntries st /\
      id e = now /\ timestamp e = Some now /\ mood e = Some moodValue /\
      tags e = Some (selectedTags st) /\
      note e = Some n /\
      (String.length n <= 500)%nat /\
      String.prefix n (trim noteValue) = true /\
      cleanStart n) /\
  selectedTags (fst (logMood now (Some moodValue) (Some noteValue) st)) = [] /\
  fst (logMood now None (Some noteValue) st) = st.
Proof.
  split; [|split; reflexivity].
  eexists. eexists. simpl. repeat split.
  - apply substring_length.
  - apply substring_prefix.
  - apply substring_cleanStart, trimEnd_cleanStart, trimStart_cleanStart.
Qed.

(** ** The store without imports *)

Lemma logMood_invariant now moodElement noteElement st :
  storeInvariant st -> storeInvariant (fst (logMood now moodElement noteElement st)).
Proof.
  intros [Htags Hall]. unfold logMood.
  destruct moodElement as [m|]; [|now split].
  destruct noteElement as [n|]; [|now split].
  split; simpl.
  - repeat split; simpl; [lia | constructor | constructor].
  - constructor; [|exact Hall].
    split; [discriminate|]. split; simpl.
    + eexists. split; [reflexivity | apply substring_length].
    + now eexists.
Qed.

Lemma perform_invariant a st : storeInvariant st -> storeInvariant (perform a st).
Proof.
  intros H. destruct a; simpl.
  - destruct H as [Ht He]. split; [now apply addTag_invariant|].
    destruct (addTag_cases name st) as [[-> _] | (-> & _)]; exact He.
  - destruct H as [Ht He]. split; [now apply removeTag_invariant | exact He].
  - now apply logMood_invariant.
  - destruct H as [Ht He]. destruct confirmed; [|now split].
    split; [exact Ht|]. simpl.
    rewrite Forall_forall in *. intros e Hin. apply filter_In in Hin. now apply He.
  - destruct H as [Ht He]. destruct confirmed; [|now split].
    split; [exact Ht | constructor].
  - exact H.
Qed.

Lemma run_invariant actions : forall st,
  storeInvariant st -> storeInvariant (run actions st).
Proof.
  induction actions as [|a r IH]; intros st H; [exact H|].
  apply IH. now apply perform_invariant.
Qed.

Lemma renderHistory_total searchInput st :
  Forall (fun e => note e <> None /\ mood e <> None) (moodEntries st) ->
  exists h, renderHistory searchInput st = Normal h.
Proof.
  intros Hall. unfold renderHistory.
  assert (Hf : exists l,
             filterEntries (currentFilter st) searchInput (moodEntries st) = Normal l).
  { unfold filterEntries, filterBySearch.
    destruct searchInput as [value|]; [|now eexists].
    destruct (truthy (trim value)); [|now eexists].
    apply filterWith_total. rewrite Forall_forall in *. intros e He.
    apply Hall. now apply filterByMood_incl in He. }
  destruct Hf as [l ->]. simpl.
  destruct (List.length (sortEntries (currentSort st) l) =? 0)%nat; now eexists.
Qed.

(** X3. Whatever the user does short of importing (adding and removing
    tags, logging moods, deleting entries, clearing, choosing a mood
    filter), starting from the empty application, every entry of the store
    has a mood, a note of at most 500 characters, and at most five tags,
    each of them non-empty, trimmed, in lower case and listed once; and
    [renderHistory] completes without an exception for every content of the
    search field. *)
Theorem store_invariant_without_import
        (actions : list action) (searchInput : option string) :
  storeInvariant (run actions initial) /\
  exists h, renderHistory searchInput (run actions initial) = Normal h.
Proof.
  assert (H : storeInvariant (run actions initial)).
  { apply run_invariant. split; [|constructor].
    repeat split; simpl; [lia | constructor | constructor]. }
  split; [exact H|].
  apply renderHistory_total. destruct H as [_ H].
  rewrite Forall_forall in *. intros e He.
  destruct (H e He) as (Hm & (n & Hn & _) & _). split; congruence.
Qed.

(** ** More on sorting *)

Lemma sortEntries_cases mode entries :
  sortEntries mode entries = sort byNewest entries \/
  sortEntries mode entries = sort byOldest entries \/
  sortEntries mode entries = sort byMoodBest entries \/
  sortEntries mode entries = sort byMoodWorst entries \/
  sortEntries mode entries = entries.
Proof.
  unfold sortEntries.
  destruct (mode =? "newest"); [now left|].
  destruct (mode =? "oldest"); [now right; left|].
  destruct (mode =? "mood-best"); [now right; right; left|].
  destruct (mode =? "mood-worst"); [now right; right; right; left|].
  now right; right; right; right.
Qed.

(** X4. In every mode [sortEntries] returns a rearrangement of its input: no
    entry is lost, none is added or repeated, and the length is the same.
    A mode other than the four known ones leaves the order as it is. *)
Theorem sortEntries_rearranges (mode : string) (entries : list entry) :
  Permutation (sortEntries mode entries) entries /\
  List.length (sortEntries mode entries) = List.length entries /\
  (mode <> "newest" -> mode <> "oldest" ->
   mode <> "mood-best" -> mode <> "mood-worst" ->
   sortEntries mode entries = entries).
Proof.
  assert (H : Permutation (sortEntries mode entries) entries).
  { destruct (sortEntries_cases mode entries) as [E|[E|[E|[E|E]]]]; rewrite E;
      try apply sort_perm. reflexivity. }
  split; [exact H|]. split; [now apply Permutation_length|].
  intros H1 H2 H3 H4. unfold sortEntries.
  apply String.eqb_neq in H1, H2, H3, H4. now rewrite H1, H2, H3, H4.
Qed.

Lemma sortEntries_rearranges_witness :
  let a := mkEntry 1 (Some "Good") (Some "") (Some []) (Some 10%Z) in
  let b := mkEntry 2 (Some "Amazing") (Some "") (Some []) (Some 20%Z) in
  sortEntries "random" [a; b] = [a; b].
Proof.
  intros a b.
  destruct (sortEntries_rearranges "random" [a; b]) as (_ & _ & H).
  apply H; discriminate.
Defined.

Lemma sort_byOldest_sorted l :
  validTimes l -> StronglySorted oldestFirst (sort byOldest l).
Proof.
  intros H.
  apply (sort_sorted byOldest (fun e => timestamp e <> None)); [ | | | exact H].
  - intros a b c _ _ _ (ta & tb & Ha & Hb & Hab) (tb' & tc & Hb' & Hc & Hbc).
    exists ta, tc. repeat split; auto. assert (tb = tb') by congruence. lia.
  - intros a b Ha Hb Hp. unfold byOldest in Hp.
    destruct (timestamp a) as [ta|] eqn:Ea, (timestamp b) as [tb|] eqn:Eb;
      try congruence.
    simpl in Hp. apply Z.ltb_lt in Hp. exists tb, ta. repeat split; auto. lia.
  - intros a b Ha Hb Hp. unfold byOldest in Hp.
    destruct (timestamp a) as [ta|] eqn:Ea, (timestamp b) as [tb|] eqn:Eb;
      try congruence.
    simpl in Hp. apply Z.ltb_ge in Hp. exists ta, tb. repeat split; auto. lia.
Qed.

Lemma knownMood_ranked e : knownMood e -> exists r, ranked e r.
Proof.
  intros [m [Hm He]]. unfold ranked. rewrite He.
  simpl in Hm. destruct Hm as [<- | [<- | [<- | [<- | [<- | []]]]]];
    now eexists.
Qed.

Lemma sort_byMoodBest_sorted l :
  Forall knownMood l -> StronglySorted bestFirst (sort byMoodBest l).
Proof.
  intros H.
  apply (sort_sorted byMoodBest (fun e => exists r, ranked e r)).
  - intros a b c _ _ _ (ra & rb & Ha & Hb & Hab) (rb' & rc & Hb' & Hc & Hbc).
    unfold ranked in *. exists ra, rc. repeat split; auto.
    assert (rb = rb') by congruence. lia.
  - intros a b [ra Ha] [rb Hb] Hp. exists rb, ra. repeat split; auto.
    unfold byMoodBest, ranked in *. rewrite Ha, Hb in Hp. simpl in Hp.
    apply Z.ltb_lt in Hp. lia.
  - intros a b [ra Ha] [rb Hb] Hp. exists ra, rb. repeat split; auto.
    unfold byMoodBest, ranked in *. rewrite Ha, Hb in Hp. simpl in Hp.
    apply Z.ltb_ge in Hp. lia.
  - rewrite Forall_forall in *. intros e He. now apply knownMood_ranked, H.
Qed.

Lemma sort_byMoodWorst_sorted l :
  Forall knownMood l -> StronglySorted worstFirst (sort byMoodWorst l).
Proof.
  intros H.
  apply (sort_sorted byMoodWorst (fun e => exists r, ranked e r)).
  - intros a b c _ _ _ (ra & rb & Ha & Hb & Hab) (rb' & rc & Hb' & Hc & Hbc).
    unfold ranked in *. exists ra, rc. repeat split; auto.
    assert (rb = rb') by congruence. lia.
  - intros a b [ra Ha] [rb Hb] Hp. exists rb, ra. repeat split; auto.
    unfold byMoodWorst, ranked in *. rewrite Ha, Hb in Hp. simpl in Hp.
    apply Z.ltb_lt in Hp. lia.
  - intros a b [ra Ha] [rb Hb] Hp. exists ra, rb. repeat split; auto.
    unfold byMoodWorst, ranked in *. rewrite Ha, Hb in Hp. simpl in Hp.
    apply Z.ltb_ge in Hp. lia.
  - rewrite Forall_forall in *. intros e He. now apply knownMood_ranked, H.
Qed.

(** X5. When every entry has a valid date, the mode "newest" lists every
    entry before all entries with an earlier timestamp, and "oldest" before
    all entries with a later one.  When every entry has one of the five
    moods, "mood-best" lists every entry before all entries of lower rank
    and "mood-worst" before all entries of higher rank. *)
Theorem sortEntries_orders (entries : list entry) :
  (validTimes entries ->
   StronglySorted newestFirst (sortEntries "newest" entries) /\
   StronglySorted oldestFirst (sortEntries "oldest" entries)) /\
  (Forall knownMood entries ->
   StronglySorted bestFirst (sortEntries "mood-best" entries) /\
   StronglySorted worstFirst (sortEntries "mood-worst" entries)).
Proof.
  split; intros H.
  - split; [now apply sort_byNewest_sorted | now apply sort_byOldest_sorted].
  - split; [now apply sort_byMoodBest_sorted | now apply sort_byMoodWorst_sorted].
Qed.

Lemma sortEntries_orders_witness :
  let a := mkEntry 1 (Some "Good") (Some "") (Some []) (Some 10%Z) in
  let b := mkEntry 2 (Some "Amazing") (Some "") (Some []) (Some 20%Z) in
  let c := mkEntry 3 (Some "Terrible") (Some "") (Some []) (Some 30%Z) in
  (sortEntries "mood-best" [a; c; b] = [b; a; c] /\
   StronglySorted bestFirst (sortEntries "mood-best" [a; c; b])) /\
  (sortEntries "newest" [a; c; b] = [c; b; a] /\
   StronglySorted newestFirst (sortEntries "newest" [a; c; b])).
Proof.
  intros a b c.
  destruct (sortEntries_orders [a; c; b]) as (Htime & Hmood).
  split; (split; [reflexivity|]).
  - apply Hmood. repeat constructor.
    + exists "good". split; [unfold moods; simpl; tauto | reflexivity].
    + exists "terrible". split; [unfold moods; simpl; tauto | reflexivity].
    + exists "amazing". split; [unfold moods; simpl; tauto | reflexivity].
  - apply Htime. repeat constructor; discriminate.
Defined.

Section SortStable.

Context {A : Type}.
Variable cmp : A -> A -> number.
Variable p : A -> bool.
Hypothesis apart :
  forall x y, positive (cmp x y) = true -> p x = true -> p y = true -> False.

Lemma insert_filter x l : filter p (insert cmp x l) = filter p (x :: l).
Proof.
  induction l as [|y r IH]; [reflexivity|].
  simpl insert. destruct (positive (cmp x y)) eqn:E; [|reflexivity].
  simpl filter at 1. rewrite IH. simpl.
  destruct (p x) eqn:Px, (p y) eqn:Py; try reflexivity.
  destruct (apart x y E Px Py).
Qed.

Lemma sort_filter l : filter p (sort cmp l) = filter p l.
Proof.
  induction l as [|x r IH]; [reflexivity|].
  simpl sort. rewrite insert_filter. simpl. now rewrite IH.
Qed.

End SortStable.

Lemma minus_same v : positive (minus v v) = false.
Proof. destruct v as [z|]; simpl; [apply Z.ltb_ge; lia | reflexivity]. Qed.

Lemma sameTime_apart cmp :
  (cmp = byNewest \/ cmp = byOldest) ->
  forall t x y,
    positive (cmp x y) = true -> sameTime t x = true -> sameTime t y = true -> False.
Proof.
  intros Hc t x y H Hx Hy. unfold sameTime, sameInstant in *.
  destruct (timestamp x) as [tx|] eqn:Ex; [|discriminate].
  destruct (timestamp y) as [ty|] eqn:Ey; [|discriminate].
  apply Z.eqb_eq in Hx, Hy. subst.
  destruct Hc as [-> | ->]; unfold byNewest, byOldest in H;
    rewrite Ex, Ey, minus_same in H; discriminate.
Qed.

(** X6. Where the comparator orders the entries consistently the sort is
    stable.  When every entry has a valid date, entries that have the same
    timestamp keep the order they had in the modes "newest" and "oldest";
    when every entry has one of the five moods, entries that have the same
    mood keep the order they had in the modes "mood-best" and
    "mood-worst". *)
Theorem sortEntries_stable (entries : list entry) (t : Z) (key : string) :
  (validTimes entries ->
   filter (sameTime t) (sortEntries "newest" entries) = filter (sameTime t) entries /\
   filter (sameTime t) (sortEntries "oldest" entries) = filter (sameTime t) entries) /\
  (Forall knownMood entries ->
   filter (sameMood key) (sortEntries "mood-best" entries)
   = filter (sameMood key) entries /\
   filter (sameMood key) (sortEntries "mood-worst" entries)
   = filter (sameMood key) entries).
Proof.
  split; intros _; split.
  - apply (sort_filter byNewest). apply sameTime_apart. now left.
  - apply (sort_filter byOldest). apply sameTime_apart. now right.
  - apply (sort_filter byMoodBest). unfold sameMood, byMoodBest.
    intros x y H Hx Hy. apply String.eqb_eq in Hx, Hy.
    rewrite Hx, Hy, minus_same in H. discriminate.
  - apply (sort_filter byMoodWorst). unfold sameMood, byMoodWorst.
    intros x y H Hx Hy. apply String.eqb_eq in Hx, Hy.
    rewrite Hx, Hy, minus_same in H. discriminate.
Qed.

Lemma sortEntries_stable_witness :
  let a := mkEntry 1 (Some "Good") (Some "") (Some []) (Some 20%Z) in
  let b := mkEntry 2 (Some "Amazing") (Some "") (Some []) (Some 10%Z) in
  let c := mkEntry 3 (Some "Good") (Some "") (Some []) (Some 10%Z) in
  sortEntries "oldest" [a; b; c] = [b; c; a] /\
  filter (sameTime 10) (sortEntries "oldest" [a; b; c]) = [b; c] /\
  sortEntries "mood-worst" [b; a; c] = [a; c; b] /\
  filter (sameMood "Good") (sortEntries "mood-worst" [b; a; c]) = [a; c].
Proof.
  intros a b c.
  split; [reflexivity|]. split; [|split; [reflexivity|]].
  - destruct (sortEntries_stable [a; b; c] 10 "") as [H _].
    rewrite (proj2 (H ltac:(repeat constructor; discriminate))). reflexivity.
  - destruct (sortEntries_stable [b; a; c] 0 "Good") as [_ H].
    assert (Hk : Forall knownMood [b; a; c]).
    { repeat constructor.
      - exists "amazing". split; [unfold moods; simpl; tauto | reflexivity].
      - exists "good". split; [unfold moods; simpl; tauto | reflexivity].
      - exists "good". split; [unfold moods; simpl; tauto | reflexivity]. }
    rewrite (proj2 (H Hk)). reflexivity.
Defined.

Section SortFixed.

Context {A : Type}.
Variable cmp : A -> A -> number.
Hypothesis one_way :
  forall x y, positive (cmp x y) = true -> positive (cmp y x) = false.





End SortFixed.



(** ** More on the statistics *)

(** X8. For stores in which every entry has a valid date, the streak
    depends only on which local days have an entry: two such stores with
    entries on the same days have the same streak.  So neither the order of
    the store nor a further entry on a day that has one already changes
    it. *)
Theorem streak_depends_on_days (tz now : Z) (entries entries' : list entry) :
  validTimes entries ->
  validTimes entries' ->
  (forall d, entryOn tz entries d <-> entryOn tz entries' d) ->
  computeStreak tz now entries = computeStreak tz now entries'.
Proof.
  intros Hv Hv' Hsame.
  destruct (computeStreak_spec tz now entries Hv) as [Hdays Hgap].
  destruct (computeStreak_spec tz now entries' Hv') as [Hdays' Hgap'].
  destruct (Nat.lt_trichotomy (computeStreak tz now entries)
                              (computeStreak tz now entries')) as [H | [H | H]].
  - exfalso. apply Hgap, Hsame, Hdays'. lia.
  - exact H.
  - exfalso. apply Hgap', Hsame, Hdays. lia.
Qed.

Lemma streak_depends_on_days_witness :
  let a := mkEntry 1 (Some "Good") (Some "") (Some []) (Some 1704110400000%Z) in
  let b := mkEntry 2 (Some "Neutral") (Some "") (Some []) (Some 1704110400777%Z) in
  computeStreak 0 1704110400000 [a; b] = computeStreak 0 1704110400000 [b].
Proof.
  intros a b. apply streak_depends_on_days.
  - repeat constructor; discriminate.
  - repeat constructor; discriminate.
  - intros d. split; intros (e & t & He & Et & Hd).
    + exists b, 1704110400777%Z. split; [now left | split; [reflexivity|]].
      destruct He as [<- | [<- | []]]; injection Et as <-; exact Hd.
    + exists b, 1704110400777%Z. split; [now right; left | split; [reflexivity|]].
      destruct He as [<- | []]; injection Et as <-; exact Hd.
Defined.

Lemma streakLoop_bound tz l : forall c,
  (streakLoop tz l c 0 <= List.length l)%nat.
Proof.
  induction l as [|e r IH]; intros c; simpl; [lia|].
  destruct (sameInstant (startOfDay tz (timestamp e)) c).
  - rewrite streakLoop_acc. specialize (IH (daysBefore 1 c)). lia.
  - destruct (earlier (startOfDay tz (timestamp e)) c); [lia|].
    specialize (IH c). lia.
Qed.

(** X9. On the dashboard the total is the number of entries, and neither the
    streak nor the count of this week exceeds it.  When every entry has a
    valid date, the streak is positive exactly when some entry is dated
    today.  For the empty store the dashboard shows 0, 0, "-" and 0. *)
Theorem updateStats_bounds (tz now : Z) (entries : list entry) :
  totalEntries (updateStats tz now entries) = List.length entries /\
  (currentStreak (updateStats tz now entries) <= List.length entries)%nat /\
  (thisWeekEntries (updateStats tz now entries) <= List.length entries)%nat /\
  (validTimes entries ->
   ((0 < currentStreak (updateStats tz now entries))%nat
    <-> entryOn tz entries (dayOf tz now))) /\
  updateStats tz now [] = mkStats 0 0 "-" 0.
Proof.
  assert (Hs : currentStreak (updateStats tz now entries) = computeStreak tz now entries).
  { unfold updateStats. now destruct (List.length entries =? 0)%nat. }
  split; [|split; [|split; [|split]]].
  - unfold updateStats. now destruct (List.length entries =? 0)%nat.
  - rewrite Hs. unfold computeStreak.
    rewrite <- (Permutation_length (sort_perm byNewest entries)).
    apply streakLoop_bound.
  - unfold updateStats. destruct (List.length entries =? 0)%nat; simpl; [lia|].
    apply filter_length_le.
  - intros Hv. rewrite Hs.
    destruct (computeStreak_spec tz now entries Hv) as [Hdays Hgap]. split.
    + intros Hpos. replace (dayOf tz now) with (dayOf tz now - 0)%Z by lia.
      apply Hdays. lia.
    + intros Hon. destruct (computeStreak tz now entries); [|lia].
      exfalso. apply Hgap.
      now replace (dayOf tz now - Z.of_nat 0)%Z with (dayOf tz now) by lia.
  - reflexivity.
Qed.

Lemma updateStats_bounds_witness :
  let now := 1704110400000%Z in
  let a := mkEntry 1 (Some "Good") (Some "") (Some []) (Some now) in
  (0 < currentStreak (updateStats 0 now [a]))%nat.
Proof.
  intros now a.
  destruct (updateStats_bounds 0 now [a]) as (_ & _ & _ & H & _).
  apply H; [repeat constructor; discriminate|].
  exists a, now. split; [now left | split; reflexivity].
Defined.

Section InsertSplit.

Context {A : Type}.
Variable cmp : A -> A -> number.

(** [insert] moves the new element past those it belongs after, and no
    further. *)
Lemma insert_split x l :
  exists p r,
    insert cmp x l = p ++ x :: r /\ Forall (fun y => positive (cmp x y) = true) p.
Proof.
  induction l as [|y l IH]; simpl.
  - exists [], []. split; [reflexivity | constructor].
  - destruct (positive (cmp x y)) eqn:E.
    + destruct IH as (p & r & -> & Hp). exists (y :: p), r.
      split; [reflexivity | now constructor].
    + exists [], (y :: l). split; [reflexivity | constructor].
Qed.

End InsertSplit.

Lemma setHoursZero_mono tz t t' :
  (t <= t')%Z -> (setHoursZero tz t <= setHoursZero tz t')%Z.
Proof.
  intros H. rewrite !setHoursZero_midnight.
  apply (dayOf_mono tz) in H. unfold midnight, msPerDay. lia.
Qed.

(** The loop reaches an entry dated now when only later entries stand in
    front of it. *)
Lemma streakLoop_reaches tz now e r p : forall c k,
  timestamp e = Some now ->
  Forall (fun y => exists ty, timestamp y = Some ty /\ (now < ty)%Z) p ->
  (1 <= k)%nat \/ c = setHoursZero tz now ->
  (1 <= streakLoop tz (p ++ e :: r) c k)%nat.
Proof.
  induction p as [|y p IH]; intros c k He Hp Hck.
  - simpl. rewrite He. simpl. destruct Hck as [Hk | ->].
    + destruct (setHoursZero tz now =? c)%Z.
      * rewrite streakLoop_acc. lia.
      * destruct (setHoursZero tz now <? c)%Z; [exact Hk|].
        rewrite streakLoop_acc. lia.
    + rewrite Z.eqb_refl, streakLoop_acc. lia.
  - inversion Hp as [|? ? (ty & Ey & Hty) Hp']; subst.
    simpl. rewrite Ey. simpl.
    destruct (setHoursZero tz ty =? c)%Z.
    + apply IH; auto. left. lia.
    + destruct (Z.ltb_spec (setHoursZero tz ty) c) as [Hlt|Hge].
      * destruct Hck as [Hk | ->]; [exact Hk|].
        pose proof (setHoursZero_mono tz now ty). lia.
      * now apply IH.
Qed.

(** X10. Right after a mood is logged, the dashboard drawn at the same clock
    value counts one entry more than the store had, a streak of at least 1,
    and at least one entry this week. *)
Theorem logMood_then_stats
        (tz now : Z) (moodValue noteValue : string) (st : app) :
  let st' := fst (logMood now (Some moodValue) (Some noteValue) st) in
  totalEntries (updateStats tz now (moodEntries st'))
  = S (List.length (moodEntries st)) /\
  (1 <= currentStreak (updateStats tz now (moodEntries st')))%nat /\
  (1 <= thisWeekEntries (updateStats tz now (moodEntries st')))%nat.
Proof.
  intros st'. unfold st'. simpl moodEntries.
  set (e := mkEntry now (Some moodValue)
                    (Some (String.substring 0 500 (trim noteValue)))
                    (Some (selectedTags st)) (Some now)).
  split; [reflexivity|]. split.
  - change (currentStreak (updateStats tz now (e :: moodEntries st)))
      with (computeStreak tz now (e :: moodEntries st)).
    unfold computeStreak. simpl sort.
    destruct (insert_split byNewest e (sort byNewest (moodEntries st)))
      as (p & r & -> & Hp).
    apply (streakLoop_reaches tz now); [reflexivity | | now right].
    rewrite Forall_forall in *. intros y Hy. specialize (Hp y Hy).
    unfold byNewest in Hp. simpl in Hp.
    destruct (timestamp y) as [ty|]; [|discriminate].
    simpl in Hp. apply Z.ltb_lt in Hp. exists ty. split; [reflexivity | lia].
  - unfold updateStats.
    cbn [List.length Nat.eqb thisWeekEntries filter timestamp e notBefore].
    replace (daysBefore 7 now <=? now)%Z with true; [simpl; lia|].
    symmetry. apply Z.leb_le. unfold daysBefore, msPerDay. lia.
Qed.

(** ** Calendar and chart *)










(** X13. The bar chart and the distribution agree: [renderChart] draws the
    five moods from "Terrible" to "Amazing", the reverse of the order of the
    distribution, and gives every mood the height and the count that
    [updateMoodDistribution] gives it as percentage and count. *)
Theorem renderChart_agrees_with_distribution (entries : list entry) :
  map chartLabel (renderChart entries) = chartMoods /\
  map chartHeight (renderChart entries)
  = rev (map percentage (updateMoodDistribution entries)) /\
  map chartCount (renderChart entries)
  = rev (map count (updateMoodDistribution entries)) /\
  map (fun b => Some (chartLabel b)) (renderChart entries)
  = rev (map (fun b => moodNames (barMood b)) (updateMoodDistribution entries)).
Proof.
  repeat split; reflexivity.
Qed.

(** ** More on the history filter *)

Lemma filterByMood_filter currentFilter entries :
  filterByMood currentFilter entries = filter (passesMood currentFilter) entries.
Proof.
  unfold filterByMood, passesMood.
  destruct (currentFilter =? "All"); simpl; [|reflexivity].
  symmetry. now apply filter_keeps_all.
Qed.

Lemma filterWith_Normal {A : Type} (f : A -> completion bool) (l r : list A) :
  filterWith f l = Normal r ->
  r = filter (fun x => match f x with Normal true => true | _ => false end) l.
Proof.
  revert r. induction l as [|x l IH]; intros r H; simpl in *.
  - congruence.
  - destruct (f x) as [b|]; simpl in H; [|discriminate].
    destruct (filterWith f l) as [r'|]; simpl in H; [|discriminate].
    injection H as <-. rewrite (IH r' eq_refl). now destruct b.
Qed.

Lemma filter_twice {A : Type} (p q : A -> bool) (l : list A) :
  filter q (filter p l) = filter (fun x => p x && q x) l.
Proof.
  induction l as [|x l IH]; simpl; [reflexivity|].
  destruct (p x); simpl; [destruct (q x)|]; now rewrite IH.
Qed.

Lemma matchesSearch_true term e :
  matchesSearch term e = Normal true ->
  exists n,
    note e = Some n /\
    (includes (toLowerCase n) term = true \/
     exists m,
       mood e = Some m /\
       (includes (toLowerCase m) term = true \/
        exists l t, tags e = Some l /\ In t l /\ includes t term = true)).
Proof.
  unfold matchesSearch.
  destruct (note e) as [n|]; simpl; [|discriminate].
  intros H. exists n. split; [reflexivity|].
  destruct (includes (toLowerCase n) term); [now left | right].
  destruct (mood e) as [m|]; simpl in H; [|discriminate].
  exists m. split; [reflexivity|].
  destruct (includes (toLowerCase m) term); [now left | right].
  destruct (tags e) as [l|]; [|discriminate].
  injection H as H. apply existsb_exists in H. destruct H as [t [Ht Hi]].
  now exists l, t.
Qed.

(** X14. When the search field holds a term and the filter stage completes,
    its result is the input with some entries left out, in the same order.
    The entries kept are exactly those that pass the mood filter and on
    which the search callback answers yes; each of them has the term in its
    case-folded note, in its case-folded mood, or in one of its tags. *)
Theorem filterEntries_keeps_matches
        (currentFilter value : string) (entries result : list entry) :
  trim value <> "" ->
  filterEntries currentFilter (Some value) entries = Normal result ->
  (exists p, result = filter p entries) /\
  (forall e,
      In e result <->
      In e entries /\ passesMood currentFilter e = true /\
      matchesSearch (searchTermOf value) e = Normal true) /\
  (forall e,
      In e result ->
      exists n,
        note e = Some n /\
        (includes (toLowerCase n) (searchTermOf value) = true \/
         exists m,
           mood e = Some m /\
           (includes (toLowerCase m) (searchTermOf value) = true \/
            exists l t,
              tags e = Some l /\ In t l /\ includes t (searchTermOf value) = true))).
Proof.
  intros Hterm H. unfold filterEntries, filterBySearch in H.
  apply truthy_true in Hterm. rewrite Hterm in H.
  apply filterWith_Normal in H. rewrite filterByMood_filter, filter_twice in H.
  fold (searchTermOf value) in H.
  assert (Hin : forall e,
             In e result <->
             In e entries /\ passesMood currentFilter e = true /\
             matchesSearch (searchTermOf value) e = Normal true).
  { intros e. rewrite H, filter_In, andb_true_iff.
    destruct (matchesSearch (searchTermOf value) e) as [[|]|]; intuition congruence. }
  split; [eexists; exact H|]. split; [exact Hin|].
  intros e He. apply matchesSearch_true. now apply Hin.
Qed.

Lemma filterEntries_keeps_matches_witness :
  let a := mkEntry 1 (Some "Good") (Some "Long Walk") None (Some 1000%Z) in
  let b := mkEntry 2 (Some "Good") (Some "rain") (Some ["wet"]) (Some 2000%Z) in
  exists p, [a] = filter p [a; b].
Proof.
  intros a b.
  apply (filterEntries_keeps_matches "Good" " WALK" [a; b] [a]);
    [discriminate | reflexivity].
Defined.

Lemma prefix_same s : String.prefix s s = true.
Proof.
  induction s as [|c s IH]; simpl; [reflexivity|].
  destruct (ascii_dec c c); [exact IH | congruence].
Qed.

Lemma includes_same s : includes s s = true.
Proof. destruct s; [reflexivity|]. cbn [includes]. now rewrite prefix_same. Qed.

Lemma matchesSearch_tag term e l :
  note e <> None -> mood e <> None -> tags e = Some l -> In term l ->
  matchesSearch term e = Normal true.
Proof.
  intros Hn Hm Ht Hin. unfold matchesSearch.
  destruct (note e) as [n|]; [simpl | congruence].
  destruct (includes (toLowerCase n) term); [reflexivity|].
  destruct (mood e) as [m|]; [simpl | congruence].
  destruct (includes (toLowerCase m) term); [reflexivity|].
  rewrite Ht. f_equal. apply existsb_exists. exists term.
  split; [exact Hin | apply includes_same].
Qed.

(** X15. A tag is found under the name it was added with.  When every entry
    has a note and a mood, typing a name into the search field keeps every
    entry that passes the mood filter and has among its tags the form that
    [addTag] stores for that name, however the name is capitalised or
    padded with white space. *)
Theorem search_finds_added_tag
        (currentFilter name : string) (entries : list entry)
        (e : entry) (l : list string) :
  Forall (fun e => note e <> None /\ mood e <> None) entries ->
  normalize name <> "" ->
  In e entries ->
  passesMood currentFilter e = true ->
  tags e = Some l ->
  In (normalize name) l ->
  exists result,
    filterEntries currentFilter (Some name) entries = Normal result /\ In e result.
Proof.
  intros Hall Hname Hin Hpass Htags Htag.
  assert (Hterm : truthy (trim name) = true).
  { apply truthy_true. intros E. apply Hname. unfold normalize. now rewrite E. }
  assert (Htot : exists result,
             filterEntries currentFilter (Some name) entries = Normal result).
  { unfold filterEntries, filterBySearch. rewrite Hterm.
    apply filterWith_total. rewrite Forall_forall in *. intros x Hx.
    apply Hall. now apply filterByMood_incl in Hx. }
  destruct Htot as [result Hres]. exists result. split; [exact Hres|].
  unfold filterEntries, filterBySearch in Hres. rewrite Hterm in Hres.
  apply filterWith_Normal in Hres. rewrite filterByMood_filter, filter_twice in Hres.
  rewrite Hres. apply filter_In. split; [exact Hin|].
  rewrite Hpass. simpl.
  rewrite Forall_forall in Hall. destruct (Hall e Hin) as [Hn Hm].
  now rewrite (matchesSearch_tag (toLowerCase (trim name)) e l Hn Hm Htags Htag).
Qed.

Lemma search_finds_added_tag_witness :
  let st := addTag " Work " initial in
  let e := mkEntry 5 (Some "Good") (Some "") (Some (selectedTags st)) (Some 5%Z) in
  exists result,
    filterEntries "Good" (Some "WORK") [e] = Normal result /\ In e result.
Proof.
  intros st e.
  apply (search_finds_added_tag "Good" "WORK" [e] e ["work"]).
  - repeat constructor; discriminate.
  - discriminate.
  - now left.
  - reflexivity.
  - reflexivity.
  - now left.
Defined.

(** X16. The search looks at the typed text only through its trimmed and
    case-folded form: two texts with the same such form give the same
    outcome of the filter stage, an exception included. *)
Theorem search_uses_normal_form
        (currentFilter value value' : string) (entries : list entry) :
  searchTermOf value = searchTermOf value' ->
  filterEntries currentFilter (Some value) entries
  = filterEntries currentFilter (Some value') entries.
Proof.
  unfold searchTermOf. intros E. unfold filterEntries, filterBySearch.
  assert (Ht : truthy (trim value) = truthy (trim value')).
  { unfold truthy. f_equal.
    rewrite <- (isEmpty_toLowerCase (trim value)), E. apply isEmpty_toLowerCase. }
  rewrite Ht, E. reflexivity.
Qed.

Lemma search_uses_normal_form_witness :
  let a := mkEntry 1 (Some "Good") (Some "Long Walk") None (Some 1000%Z) in
  filterEntries "All" (Some "  WALK") [a] = filterEntries "All" (Some "walk ") [a].
Proof.
  intros a. apply search_uses_normal_form. reflexivity.
Defined.

(** ** More on import, export and storage *)

Lemma reviveTimestamps_null items :
  In None items -> reviveTimestamps items = Throw TypeError.
Proof.
  induction items as [|[e|] r IH]; intros H; simpl.
  - destruct H.
  - destruct H as [H|H]; [discriminate|]. now rewrite IH.
  - reflexivity.
Qed.

(** X17. An imported array that has [null] among its elements is refused as
    a whole: the import shows the "Import Error" notice and the state stays
    as it was, also for the entries that come before the [null]. *)
Theorem import_refuses_null_element
        (searchInput : option string) (st : app) (items : list (option entry)) :
  In None items ->
  importData searchInput (Some (ArrayOf items)) st
  = (st, Some (Modal "Import Error" "Could not parse JSON.")).
Proof.
  intros H. unfold importData, tryImport. simpl jsonParse. cbv iota.
  now rewrite (reviveTimestamps_null items H).
Qed.

Lemma import_refuses_null_element_witness :
  let e := mkEntry 1 (Some "Good") (Some "x") (Some []) (Some 1000%Z) in
  importData None (Some (ArrayOf [Some e; None])) initial
  = (initial, Some (Modal "Import Error" "Could not parse JSON.")).
Proof.
  intros e. apply import_refuses_null_element. simpl. auto.
Defined.

Lemma importData_entries searchInput st imported :
  importData searchInput (Some (arrayOfEntries imported)) st
  = (withEntries st (imported ++ moodEntries st),
     Some match renderAll searchInput (withEntries st (imported ++ moodEntries st)) with
          | Normal _ => Toast "Data imported successfully"
          | Throw _ => Modal "Import Error" "Could not parse JSON."
          end).
Proof.
  unfold importData, tryImport, arrayOfEntries. simpl jsonParse. cbv iota.
  rewrite reviveTimestamps_entries.
  now destruct (renderAll searchInput (withEntries st (imported ++ moodEntries st))).
Qed.

(** X18. The notice of an import of entry objects follows the redraw, not
    the import.  When every entry, old and new, has a note and a mood, the
    batch is stored and the success toast is shown.  When the search field
    holds a term and an entry that passes the mood filter has no note, the
    batch is stored all the same, but the notice is the "Import Error"
    modal. *)
Theorem import_notice_follows_redraw
        (searchInput : option string) (st : app) (imported : list entry) :
  (Forall (fun e => note e <> None /\ mood e <> None) (imported ++ moodEntries st) ->
   importData searchInput (Some (arrayOfEntries imported)) st
   = (withEntries st (imported ++ moodEntries st),
      Some (Toast "Data imported successfully"))) /\
  (forall value,
      searchInput = Some value -> trim value <> "" ->
      (exists e, In e (filterByMood (currentFilter st) (imported ++ moodEntries st))
                 /\ note e = None) ->
      importData searchInput (Some (arrayOfEntries imported)) st
      = (withEntries st (imported ++ moodEntries st),
         Some (Modal "Import Error" "Could not parse JSON."))).
Proof.
  split.
  - intros Hall. rewrite importData_entries. unfold renderAll.
    destruct (renderHistory_total searchInput
                (withEntries st (imported ++ moodEntries st)) Hall) as [h ->].
    reflexivity.
  - intros value -> Hterm Hmissing. rewrite importData_entries.
    unfold renderAll, renderHistory, filterEntries, filterBySearch.
    apply truthy_true in Hterm. cbn [moodEntries currentFilter withEntries].
    rewrite Hterm.
    now rewrite (filterWith_throws _ _ Hmissing).
Qed.

Lemma import_notice_follows_redraw_witness :
  let old := mkEntry 1 (Some "Good") (Some "x") (Some []) (Some 1000%Z) in
  let new := mkEntry 2 (Some "Neutral") None None (Some 2000%Z) in
  let st := mkApp [old] "All" "newest" [] in
  importData (Some "x") (Some (arrayOfEntries [new])) st
  = (withEntries st [new; old], Some (Modal "Import Error" "Could not parse JSON."))
  /\ importData (Some "x") (Some (arrayOfEntries [old])) st
     = (withEntries st [old; old], Some (Toast "Data imported successfully")).
Proof.
  intros old new st. split.
  - destruct (import_notice_follows_redraw (Some "x") st [new]) as [_ H].
    apply (H "x"); [reflexivity | discriminate |].
    exists new. split; [simpl; auto | reflexivity].
  - destruct (import_notice_follows_redraw (Some "x") st [old]) as [H _].
    apply H. repeat constructor; discriminate.
Defined.

Lemma NoDup_doubled {A : Type} (l : list A) : l <> [] -> ~ NoDup (l ++ l).
Proof.
  destruct l as [|x r]; [congruence|]. intros _ H.
  simpl in H. apply NoDup_cons_iff in H. destruct H as [H _].
  apply H. apply in_elt.
Qed.

Lemma written_valid e : timestamp e <> None -> written e = e.
Proof.
  destruct e as [i m n g [t|]]; unfold written; simpl; [reflexivity | congruence].
Qed.

Lemma written_all l : validTimes l -> map written l = l.
Proof.
  induction 1 as [|e r He _ IH]; simpl; [reflexivity|].
  now rewrite (written_valid e He), IH.
Qed.

Lemma written_ids l : map id (map written l) = map id l.
Proof. rewrite map_map. reflexivity. Qed.

Lemma written_filter_id entryId l :
  filter (fun e => negb (id e =? entryId)%Z) (map written l)
  = map written (filter (fun e => negb (id e =? entryId)%Z) l).
Proof.
  induction l as [|e r IH]; simpl; [reflexivity|].
  destruct (negb (id e =? entryId)%Z); simpl; now rewrite IH.
Qed.

(** X19. Importing the file that [exportData] has just written does not
    merge: the store then holds what was written followed by what it held.
    What was written is the store itself when every entry has a valid date
    (an Invalid Date is written as [null] and read back as the epoch), so
    that every entry is in the store twice.  In any case a non-empty store
    no longer has unique ids, and a later [deleteEntry] removes both copies
    of an entry. *)
Theorem import_of_export_doubles
        (searchInput : option string) (st : app) (entryId : Z) :
  let st' := fst (importData searchInput (Some (fst (exportData st))) st) in
  moodEntries st' = map written (moodEntries st) ++ moodEntries st /\
  (validTimes (moodEntries st) ->
   moodEntries st' = moodEntries st ++ moodEntries st) /\
  (moodEntries st <> [] -> ~ NoDup (map id (moodEntries st'))) /\
  moodEntries (deleteEntry true entryId st')
  = map written (moodEntries (deleteEntry true entryId st))
    ++ moodEntries (deleteEntry true entryId st).
Proof.
  intros st'.
  assert (E : moodEntries st' = map written (moodEntries st) ++ moodEntries st).
  { unfold st', exportData. cbn [fst]. now rewrite importData_entries. }
  split; [exact E|]. split; [|split].
  - intros Hv. now rewrite E, written_all.
  - intros Hne. rewrite E, map_app, written_ids. apply NoDup_doubled.
    destruct (moodEntries st); [congruence | discriminate].
  - simpl. now rewrite E, filter_app, written_filter_id.
Qed.

Lemma import_of_export_doubles_witness :
  let a := mkEntry 7 (Some "Good") (Some "") (Some []) (Some 7%Z) in
  let st := mkApp [a] "All" "newest" [] in
  moodEntries (fst (importData None (Some (fst (exportData st))) st)) = [a; a] /\
  ~ NoDup (map id (moodEntries (fst (importData None (Some (fst (exportData st))) st)))).
Proof.
  intros a st.
  destruct (import_of_export_doubles None st 0) as (_ & Hv & Hid & _).
  split.
  - apply Hv. repeat constructor. discriminate.
  - apply Hid. discriminate.
Defined.

Lemma loadEntries_entries l : loadEntries (map Some l) = Normal (map loadEntry l).
Proof.
  induction l as [|e r IH]; simpl; [reflexivity|]. now rewrite IH.
Qed.

Lemma loadEntry_with_tags e : tags e <> None -> loadEntry e = e.
Proof.
  destruct e as [i m n [l|] t]; unfold loadEntry; simpl; [reflexivity | congruence].
Qed.

Lemma loadEntry_all l : Forall (fun e => tags e <> None) l -> map loadEntry l = l.
Proof.
  induction 1 as [|e r He _ IH]; simpl; [reflexivity|].
  now rewrite (loadEntry_with_tags e He), IH.
Qed.

(** X20. What [saveData] stores, [loadData] reads back: the entries that
    were written come back one by one and in order, with the empty list of
    tags in place of missing tags and everything else as it was written; no
    notice is shown.  An entry is written as it is, except that an Invalid
    Date is written as [null], which is read back as the epoch.  So a store
    in which every entry has tags and a valid date is restored exactly.
    Without a stored item [loadData] leaves the state as it is. *)
Theorem loadData_restores_saved (st st0 : app) :
  loadData (saveData st) st0
  = Loaded (withEntries st0 (map loadEntry (map written (moodEntries st)))) None /\
  (forall e,
      tags (loadEntry e) = Some match tags e with Some l => l | None => [] end /\
      id (loadEntry e) = id e /\ mood (loadEntry e) = mood e /\
      note (loadEntry e) = note e /\ timestamp (loadEntry e) = timestamp e) /\
  (forall e,
      timestamp (written e)
      = Some match timestamp e with Some t => t | None => 0%Z end /\
      id (written e) = id e /\ mood (written e) = mood e /\
      note (written e) = note e /\ tags (written e) = tags e) /\
  (Forall (fun e => tags e <> None) (moodEntries st) ->
   validTimes (moodEntries st) ->
   loadData (saveData st) st = Loaded st None) /\
  loadData None st0 = Loaded st0 None.
Proof.
  assert (H : forall s,
             loadData (saveData st) s
             = Loaded (withEntries s (map loadEntry (map written (moodEntries st)))) None).
  { intros s. unfold loadData, saveData, arrayOfEntries. simpl jsonParse. cbv iota.
    now rewrite loadEntries_entries. }
  split; [apply H|]. split; [intros e; now repeat split|].
  split; [intros e; unfold written; destruct (timestamp e); now repeat split|].
  split; [|reflexivity].
  intros Htags Hv.
  now rewrite H, (written_all _ Hv), (loadEntry_all _ Htags), withEntries_same.
Qed.

Lemma loadData_restores_saved_witness :
  let a := mkEntry 7 (Some "Good") (Some "") (Some ["home"]) (Some 7%Z) in
  let st := mkApp [a] "All" "newest" [] in
  loadData (saveData st) st = Loaded st None.
Proof.
  intros a st.
  destruct (loadData_restores_saved st st) as (_ & _ & _ & H & _).
  apply H; repeat constructor; discriminate.
Defined.

(** ** More on the mood counts *)

Lemma insertIndex_perm k l : Permutation (insertIndex k l) (k :: l).
Proof.
  induction l as [|h r IH]; simpl; [reflexivity|].
  destruct (fst k <=? fst h)%N; [reflexivity|].
  rewrite IH. apply perm_swap.
Qed.

Lemma keys_perm {V : Type} (o : object V) : Permutation (keys o) (map fst o).
Proof.
  unfold keys. generalize (map fst o) as ks.
  induction ks as [|k r IH]; simpl; [reflexivity|].
  unfold isName at 1. destruct (arrayIndex k) as [n|].
  - rewrite (Permutation_map snd (insertIndex_perm (n, k) (indexKeys r))). simpl.
    now constructor.
  - rewrite <- Permutation_middle. now constructor.
Qed.

Lemma set_NoDup {V : Type} (o : object V) key v :
  NoDup (map fst o) -> NoDup (map fst (set o key v)).
Proof.
  intros H. rewrite set_keys.
  destruct (arrayIncludes (map fst o) key) eqn:E; [exact H|].
  apply NoDup_app; [exact H | repeat constructor; intros [] | ].
  intros x Hx [<- | []].
  apply arrayIncludes_In in Hx. congruence.
Qed.

Lemma increment_total o key : totalCount (increment o key) = S (totalCount o).
Proof.
  unfold increment, totalCount.
  induction o as [|[k w] r IH]; simpl; [reflexivity|].
  destruct (String.eqb_spec k key) as [->|N]; simpl.
  - destruct w; simpl; lia.
  - rewrite IH. lia.
Qed.

Lemma countMoods_invariants entries : forall o,
  NoDup (map fst o) ->
  NoDup (map fst (fold_left (fun o e => increment o (propertyKey (mood e))) entries o))
  /\ totalCount (fold_left (fun o e => increment o (propertyKey (mood e))) entries o)
     = (totalCount o + List.length entries)%nat.
Proof.
  induction entries as [|e r IH]; intros o H; simpl.
  - split; [exact H | lia].
  - destruct (IH (increment o (propertyKey (mood e)))) as [Hn Ht].
    + now apply set_NoDup.
    + split; [exact Hn|]. rewrite Ht, increment_total. lia.
Qed.

(** X21. When no mood is the name of a member of [Object.prototype], the
    counts that [updateStats] collects account for every entry once: they
    add up to the number of entries, [Object.keys] lists every mood key of
    the store exactly once, and the count under a key is the number of
    entries with that key. *)
Theorem moodCounts_account_for_entries (entries : list entry) :
  plainMoods entries ->
  totalCount (countMoods entries) = List.length entries /\
  NoDup (keys (countMoods entries)) /\
  (forall key,
      In key (keys (countMoods entries)) <->
      exists e, In e entries /\ propertyKey (mood e) = key) /\
  (forall key,
      In key (keys (countMoods entries)) ->
      get (countMoods entries) key = Some (occurrences entries key)).
Proof.
  intros _.
  destruct (countMoods_invariants entries [] (NoDup_nil _)) as [Hn Ht].
  split; [exact Ht|]. split; [|split].
  - apply (Permutation_NoDup (l := map fst (countMoods entries))); [|exact Hn].
    symmetry. apply keys_perm.
  - apply counted_key.
  - apply counted_Some.
Qed.

Lemma moodCounts_account_for_entries_witness :
  let a := mkEntry 1 (Some "Good") (Some "") (Some []) (Some 10%Z) in
  let b := mkEntry 2 None (Some "") (Some []) (Some 20%Z) in
  let c := mkEntry 3 (Some "Good") (Some "") (Some []) None in
  countMoods [a; b; c] = [("Good", 2%nat); ("undefined", 1%nat)] /\
  totalCount (countMoods [a; b; c]) = 3%nat.
Proof.
  intros a b c. split; [reflexivity|].
  apply (moodCounts_account_for_entries [a; b; c]). repeat constructor.
Defined.

(** ** Theme *)

(** X22. After [toggleTheme] the theme is "light" or "dark", the same value
    is stored, and the button shows the icon of that theme; a theme other
    than "light", a missing one included, toggles to "light".  Toggling
    twice returns to a theme that was "light" or "dark".  [loadTheme] sets
    the stored theme, so that a reload after a toggle shows the theme the
    toggle chose, and sets "dark" when nothing is stored. *)
Theorem theme_toggles_between_two (p q : page) :
  let p' := fst (toggleTheme p) in
  (dataTheme p' = Some "light" \/ dataTheme p' = Some "dark") /\
  savedTheme p' = dataTheme p' /\
  (dataTheme p <> Some "light" -> dataTheme p' = Some "light") /\
  (dataTheme p = Some "light" \/ dataTheme p = Some "dark" ->
   dataTheme (fst (toggleTheme p')) = dataTheme p) /\
  (savedTheme q = savedTheme p' ->
   dataTheme (loadTheme q) = dataTheme p' /\
   themeButton (loadTheme q) = themeButton p') /\
  (savedTheme q = None -> dataTheme (loadTheme q) = Some "dark").
Proof.
  intros p'. unfold p', toggleTheme, loadTheme. simpl.
  split; [|split; [reflexivity|split; [|split; [|split]]]].
  - destruct (strictEq (dataTheme p) (Some "light")); auto.
  - intros H. destruct (dataTheme p) as [t|]; simpl; [|reflexivity].
    destruct (String.eqb_spec t "light") as [->|N]; [congruence | reflexivity].
  - intros [-> | ->]; reflexivity.
  - intros ->. destruct (strictEq (dataTheme p) (Some "light")); simpl; auto.
  - intros ->. reflexivity.
Qed.

Lemma theme_toggles_between_two_witness :
  let p := mkPage (Some "dark") None "🌙" in
  dataTheme (fst (toggleTheme (fst (toggleTheme p)))) = Some "dark" /\
  dataTheme (loadTheme (mkPage None (Some "light") "")) = Some "light".
Proof.
  intros p. split.
  - destruct (theme_toggles_between_two p p) as (_ & _ & _ & H & _).
    apply H. now right.
  - destruct (theme_toggles_between_two p (mkPage None (Some "light") ""))
      as (_ & _ & _ & _ & H & _).
    apply H. reflexivity.
Defined.

(** ** History *)

(** X23. When [renderHistory] completes it shows either a list of items or a
    message, never an empty list: the items are the entries that the filter
    stage kept, each of them once, and the message appears exactly when the
    filter stage kept none. *)
Theorem renderHistory_shows_filtered
        (searchInput : option string) (st : app) (h : history) :
  renderHistory searchInput st = Normal h ->
  exists filtered,
    filterEntries (currentFilter st) searchInput (moodEntries st) = Normal filtered /\
    match h with
    | Items l => l <> [] /\ Permutation l filtered
    | NoEntries _ => filtered = []
    end.
Proof.
  unfold renderHistory. intros H.
  destruct (filterEntries (currentFilter st) searchInput (moodEntries st))
    as [filtered|] eqn:E; simpl in H; [|discriminate].
  exists filtered. split; [reflexivity|].
  destruct (sortEntries_rearranges (currentSort st) filtered) as (Hperm & Hlen & _).
  destruct (List.length (sortEntries (currentSort st) filtered) =? 0)%nat eqn:L;
    injection H as <-.
  - apply Nat.eqb_eq in L. rewrite Hlen in L. now apply length_zero_iff_nil.
  - apply Nat.eqb_neq in L. split; [|exact Hperm].
    intros E0. rewrite E0 in L. now apply L.
Qed.

Lemma renderHistory_shows_filtered_witness :
  let a := mkEntry 1 (Some "Good") (Some "walk") (Some []) (Some 10%Z) in
  let b := mkEntry 2 (Some "Neutral") (Some "rain") (Some []) (Some 20%Z) in
  let st := mkApp [a; b] "All" "newest" [] in
  exists filtered,
    filterEntries "All" (Some "") [a; b] = Normal filtered /\
    [b; a] <> [] /\ Permutation [b; a] filtered.
Proof.
  intros a b st.
  apply (renderHistory_shows_filtered (Some "") st (Items [b; a])). reflexivity.
Defined.
